(** * GameSaver: backup engine and catalog save-path detector

    A shallow embedding of the two core services of the GameSaver desktop
    application, [backupService] (backup, retention, restore, verify, delete)
    and [catalogSaveDetectionService] (catalog loading, fuzzy title matching,
    progress reporting), together with the properties their specification
    states about them.

    Conventions of the embedding.
    - JavaScript strings are Rocq strings. Character classes ([\s], [\b],
      [a-z0-9]) and [toLowerCase] are modelled on ASCII.
    - JavaScript numbers that hold sizes and counts are [Z]; similarity scores
      and progress percentages are IEEE binary64 floats ([PrimFloat]), the
      very type JavaScript computes with.
    - Asynchronous functions are modelled sequentially: an [await] is a plain
      call. A thrown [Error] is represented by its message.
    - Node.js, the operating system and the service modules of the
      application that the two services import ([fileOps], [hash], [storage],
      [db]) are reached through the record [Platform]. *)

From Stdlib Require Import ZArith Floats Uint63 Ascii String.
From stdpp Require Import prelude strings pretty gmap sorting.

Set Warnings "-inexact-float,-register-all".

(** ** JavaScript runtime notions *)

Module Js.

(** How a call completes: normally with a value, abruptly with a thrown
    error, or not at all (a [while] loop of the source that ran out of the
    fuel the model gives it). *)
Inductive Result (A : Type) : Type :=
| Ok (a : A)
| Throw (e : string)
| Diverge.
Arguments Ok {A} a.
Arguments Throw {A} e.
Arguments Diverge {A}.

(** The value of a normal completion. *)
Definition value {A} (r : Result A) : option A :=
  match r with
  | Ok a => Some a
  | _ => None
  end.

(** [Array.prototype.sort] is stable (ECMAScript 2019). [after x y] says
    that the comparator is positive on [(x, y)], so that [x] has to come
    after [y]. With [sort (x :: l) = sortInsert x (sort l)], [x] precedes in
    the input every element it is inserted among, and stops in front of the
    first one it need not follow. *)
Fixpoint sortInsert {A} (after : A → A → bool) (x : A) (l : list A) : list A :=
  match l with
  | [] => [x]
  | y :: l' => if after x y then y :: sortInsert after x l' else x :: l
  end.

Definition sort {A} (after : A → A → bool) (l : list A) : list A :=
  foldr (sortInsert after) [] l.

(** Character classes, on ASCII. *)
Definition isSpace (c : ascii) : bool :=
  let n := nat_of_ascii c in (n =? 32) || ((9 <=? n) && (n <=? 13)).

Definition isUpper (c : ascii) : bool :=
  let n := nat_of_ascii c in (65 <=? n) && (n <=? 90).

Definition isLower (c : ascii) : bool :=
  let n := nat_of_ascii c in (97 <=? n) && (n <=? 122).

Definition isDigit (c : ascii) : bool :=
  let n := nat_of_ascii c in (48 <=? n) && (n <=? 57).

(** [\w]: letters, digits and the underscore. *)
Definition isWordChar (c : ascii) : bool :=
  isUpper c || isLower c || isDigit c || (nat_of_ascii c =? 95).

Definition lowerChar (c : ascii) : ascii :=
  if isUpper c then ascii_of_nat (nat_of_ascii c + 32) else c.

Fixpoint toLowerCase (s : string) : string :=
  match s with
  | EmptyString => EmptyString
  | String c s' => String (lowerChar c) (toLowerCase s')
  end.

Fixpoint dropWhile (p : ascii → bool) (s : string) : string :=
  match s with
  | EmptyString => EmptyString
  | String c s' => if p c then dropWhile p s' else s
  end.

(** Removes the longest suffix whose characters all satisfy [p]. *)
Fixpoint dropWhileEnd (p : ascii → bool) (s : string) : string :=
  match s with
  | EmptyString => EmptyString
  | String c s' =>
      match dropWhileEnd p s' with
      | EmptyString => if p c then EmptyString else String c EmptyString
      | r => String c r
      end
  end.

Definition trim (s : string) : string := dropWhileEnd isSpace (dropWhile isSpace s).

Definition isEmpty (s : string) : bool :=
  match s with EmptyString => true | _ => false end.

Definition startsWith (s p : string) : bool := String.prefix p s.

Definition endsWith (s p : string) : bool :=
  (String.length p <=? String.length s)
  && String.eqb (substring (String.length s - String.length p) (String.length p) s) p.

Fixpoint includes (s p : string) : bool :=
  String.prefix p s ||
  match s with
  | EmptyString => false
  | String _ s' => includes s' p
  end.

(** The one-character string that holds a double quote. *)
Definition dquote : string := String (ascii_of_nat 34) EmptyString.

(** [String(n)] for an integer [n]. *)
Definition numberToString (n : Z) : string := pretty n.

(** [text.padStart(width, '0')]. *)
Definition padStart0 (width : nat) (text : string) : string :=
  String.concat "" (replicate (width - String.length text) "0") +:+ text.

(** [parts.join(sep)]. *)
Definition join (sep : string) (parts : list string) : string := String.concat sep parts.

(** [Number(n)] for an integer [n] that a float holds exactly. *)
Definition ofZ (n : Z) : float := PrimFloat.of_uint63 (Uint63.of_Z n).

(** [text.split(separator)] for a one-character class: the pieces between
    the characters that satisfy [p], empty ones included. *)
Fixpoint splitOn (p : ascii → bool) (text : string) : list string :=
  match text with
  | EmptyString => [EmptyString]
  | String c rest =>
      if p c then EmptyString :: splitOn p rest
      else match splitOn p rest with
           | [] => [String c EmptyString]
           | piece :: pieces => String c piece :: pieces
           end
  end.

(** [text.replace(/pattern/g, replacement)] for a literal, non-empty
    [pattern]: leftmost matches, none overlapping. [skip] counts the
    characters of the current match still to drop. *)
Fixpoint replaceAllFrom (pattern replacement : string) (text : string) (skip : nat) : string :=
  match text with
  | EmptyString => EmptyString
  | String c rest =>
      match skip with
      | S k => replaceAllFrom pattern replacement rest k
      | O =>
          if String.prefix pattern text
          then replacement +:+ replaceAllFrom pattern replacement rest (String.length pattern - 1)
          else String c (replaceAllFrom pattern replacement rest 0)
      end
  end.

Definition replaceAll (pattern replacement text : string) : string :=
  replaceAllFrom pattern replacement text 0.

(** The maximal runs of [text] of characters that satisfy [p] and of
    characters that do not, in order; each run with what [p] says of it. *)
Fixpoint runs (p : ascii → bool) (text : string) : list (bool * string) :=
  match text with
  | EmptyString => []
  | String c rest =>
      match runs p rest with
      | (b, run) :: more =>
          if Bool.eqb b (p c) then (b, String c run) :: more
          else (p c, String c EmptyString) :: (b, run) :: more
      | [] => [(p c, String c EmptyString)]
      end
  end.

Definition unruns (pieces : list (bool * string)) : string :=
  String.concat "" (map (λ piece, piece.2) pieces).

(** [text.replace(/\bword\b/g, replacement)] for a [word] made of word
    characters: the matches are the maximal runs of word characters that are
    [word]. *)
Definition replaceWord (word replacement text : string) : string :=
  unruns (map (λ piece : bool * string,
                 if piece.1 && String.eqb piece.2 word then (true, replacement) else piece)
              (runs isWordChar text)).

(** [text.replace(/[class]+/g, replacement)]: every maximal run of
    characters of the class becomes [replacement]. *)
Definition replaceRuns (p : ascii → bool) (replacement text : string) : string :=
  unruns (map (λ piece : bool * string, if piece.1 then (true, replacement) else piece)
              (runs p text)).

(** The members of [new Set(values)], in insertion order. *)
Fixpoint setOf (values : list string) (seen : list string) : list string :=
  match values with
  | [] => []
  | v :: rest =>
      if existsb (String.eqb v) seen then setOf rest seen
      else v :: setOf rest (v :: seen)
  end.

(** A parsed JSON document. *)
Inductive JSON : Type :=
| JNull
| JBool (b : bool)
| JNumber (x : float)
| JString (s : string)
| JArray (items : list JSON)
| JObject (fields : list (string * JSON)).

(** [obj[key]] on the fields of an object; [None] is [undefined]. *)
Fixpoint getField (fields : list (string * JSON)) (key : string) : option JSON :=
  match fields with
  | [] => None
  | (k, v) :: rest => if String.eqb k key then Some v else getField rest key
  end.

(** [obj[key] = value]: an existing key keeps its place. *)
Fixpoint setField (fields : list (string * JSON)) (key : string) (value : JSON)
  : list (string * JSON) :=
  match fields with
  | [] => [(key, value)]
  | (k, v) :: rest =>
      if String.eqb k key then (k, value) :: rest else (k, v) :: setField rest key value
  end.

(** [Object.entries(value)] for a value that passed [typeof value === 'object']
    and is not [null]: the fields of an object, the indexed items of an array. *)
Definition entries (value : JSON) : list (string * JSON) :=
  match value with
  | JObject fields => fields
  | JArray items => imap (λ i item, (pretty i, item)) items
  | _ => []
  end.

(** [Math.round] on a float in [0, 2^52): the nearest integer, ties upwards.
    [x + 2^52 - 2^52] is [x] rounded to an integer, from which the floor. *)
Definition floor (x : float) : float :=
  let big := 4503599627370496%float in
  let r := ((x + big) - big)%float in
  if (x <? r)%float then (r - 1)%float else r.

Definition round (x : float) : float :=
  let f := floor x in
  if (0.5 <=? x - f)%float then (f + 1)%float else f.

Definition fmax (x y : float) : float := if (x <? y)%float then y else x.
Definition fmin (x y : float) : float := if (y <? x)%float then y else x.

End Js.

Export Js.

(** ** Data model ([shared/types.ts], [db]) *)

Inductive GameStatus := StatusProtected | StatusWarning | StatusError.
Inductive SaveLocationType := TypeFolder | TypeFile.
Inductive SnapshotReason := ReasonAuto | ReasonManual | ReasonPreRestore.
Inductive EventLogType := EventBackup | EventRestore | EventError.

Record StoredGame := {
  game_id : string;
  game_name : string;
  game_install_path : string;
  game_exe_path : string;
  game_created_at : string;
  game_status : GameStatus;
  game_folder_name : string
}.

(** The derived [exists] flag of a save location is read by none of the
    functions below and is left out. *)
Record SaveLocation := {
  loc_id : string;
  loc_game_id : string;
  loc_path : string;
  loc_type : SaveLocationType;
  loc_auto_detected : bool;
  loc_enabled : bool
}.

Record Snapshot := {
  snap_id : string;
  snap_game_id : string;
  snap_created_at : string;
  snap_size_bytes : Z;
  snap_checksum : string;
  snap_storage_path : string;
  snap_reason : SnapshotReason
}.

Record SnapshotFile := {
  file_id : string;
  file_snapshot_id : string;
  file_location_id : string;
  file_relative_path : string;
  file_size_bytes : Z;
  file_checksum : string
}.

(** An entry of the event log; its own id and timestamp are left out. *)
Record EventLog := {
  log_game_id : option string;
  log_type : EventLogType;
  log_message : string
}.

Record Settings := {
  backupFrequencyMinutes : Z;
  retentionCount : Z;
  storageRoot : string;
  compressionEnabled : bool;
  dataRoot : string
}.

(** [db.state]: the library index. *)
Record AppState := {
  games : list StoredGame;
  saveLocations : list SaveLocation;
  snapshots : list Snapshot;
  snapshotFiles : list SnapshotFile;
  eventLogs : list EventLog
}.

Record VerifyResult := { ok : bool; issues : Z }.

Record SnapshotManifestLocation := {
  ml_path : string;
  ml_type : SaveLocationType;
  ml_auto_detected : bool;
  ml_enabled : bool;
  ml_storage_folder : string
}.

(** The manifest of a snapshot; [version] is always 2 once it is read. *)
Record SnapshotManifestPayload := {
  m_snapshot_id : string;
  m_created_at : string;
  m_reason : SnapshotReason;
  m_locations : gmap string SnapshotManifestLocation
}.

(** A [Date]: its local-time fields and its [toISOString()]. *)
Record JsDate := {
  getFullYear : Z;
  getMonth : Z;
  getDate : Z;
  getHours : Z;
  getMinutes : Z;
  getSeconds : Z;
  getMilliseconds : Z;
  toISOString : string
}.

(** ** The platform

    What the services reach outside themselves: Node's [path] and [fs], the
    ICU collation behind [localeCompare], SHA-256, [JSON], the clock, the
    uuid generator, and the application's own [fileOps], [hash] and
    [storage] modules. [Disk] is the state of the file system; an operation
    that can fail returns a [Result]. *)
Record Platform := {
  Disk : Type;
  win32 : bool;
  path_resolve : list string → string;
  path_normalize : string → string;
  path_join : list string → string;
  path_basename : string → string;
  path_dirname : string → string;
  path_relative : string → string → string;
  localeCompare : string → string → comparison;
  hashText : string → string;
  JSON_parse : string → option JSON;
  JSON_stringify : JSON → string;
  uuid : nat → string;
  dateNow : nat → JsDate;
  dateParse : string → option JsDate;
  existsSync : Disk → string → bool;
  statIsDirectory : Disk → string → option bool;
  statSize : Disk → string → Result Z;
  readFile : Disk → string → Result string;
  hashFile : Disk → string → Result string;
  walkFiles : Disk → string → Result (list string);
  ensureDir : string → Disk → Result unit * Disk;
  copyFileWithRetries : string → string → nat → Disk → Result unit * Disk;
  writeFile : string → string → Disk → Result unit * Disk;
  removeDirSafe : string → Disk → Result unit * Disk;
  persistDb : AppState → Disk → Result unit * Disk;
  toSafeGameFolderName : string → string;
  getSnapshotRoot : string → string → string → string;
  (** [localeCompare] is a total preorder. *)
  localeCompare_antisym : ∀ a b, localeCompare b a = CompOpp (localeCompare a b);
  localeCompare_trans : ∀ a b c,
    localeCompare a b ≠ Gt → localeCompare b c ≠ Gt → localeCompare a c ≠ Gt
}.

(** [path.sep]. *)
Definition path_sep (P : Platform) : string := if win32 P then "\" else "/".

(** An access to the file system, as the services issue it. *)
Inductive FsEvent :=
| EvExists (p : string)
| EvStat (p : string)
| EvReadFile (p : string)
| EvHashFile (p : string)
| EvWalk (p : string)
| EvEnsureDir (p : string)
| EvCopy (source dest : string)
| EvWriteFile (p : string)
| EvRemoveDir (p : string)
| EvPersist.

(** The events that create or overwrite a file. *)
Definition writesFile (e : FsEvent) : bool :=
  match e with
  | EvCopy _ _ | EvWriteFile _ => true
  | _ => false
  end.

(** ** The world the backup service runs in *)

Section BackupService.

Variable P : Platform.

(** The process state ([db.state], the module-level [inFlight] set), the file
    system, the accesses made to it so far, and how many uuids and clock
    readings have been drawn. *)
Record World := {
  db : AppState;
  inFlight : gset string;
  disk : Disk P;
  trace : list FsEvent;
  uuidCount : nat;
  clock : nat
}.

Definition setDb (s : AppState) (w : World) : World :=
  {| db := s; inFlight := inFlight w; disk := disk w; trace := trace w;
     uuidCount := uuidCount w; clock := clock w |}.

Definition setInFlight (s : gset string) (w : World) : World :=
  {| db := db w; inFlight := s; disk := disk w; trace := trace w;
     uuidCount := uuidCount w; clock := clock w |}.

Definition setDisk (d : Disk P) (w : World) : World :=
  {| db := db w; inFlight := inFlight w; disk := d; trace := trace w;
     uuidCount := uuidCount w; clock := clock w |}.

Definition logged (e : FsEvent) (w : World) : World :=
  {| db := db w; inFlight := inFlight w; disk := disk w; trace := trace w ++ [e];
     uuidCount := uuidCount w; clock := clock w |}.

(** A computation of the service: it reads and changes the world and
    completes with a [Result]. *)
Definition M (A : Type) : Type := World → Result A * World.

Definition ret {A} (a : A) : M A := λ w, (Ok a, w).

Definition throw {A} (e : string) : M A := λ w, (Throw e, w).

Definition bind {A B} (m : M A) (k : A → M B) : M B := λ w,
  match m w with
  | (Ok a, w') => k a w'
  | (Throw e, w') => (Throw e, w')
  | (Diverge, w') => (Diverge, w')
  end.

Notation "x ← m ; k" := (bind m (λ x, k))
  (at level 20, m at level 100, k at level 200, only parsing, right associativity).
Notation "m ;; k" := (bind m (λ _, k))
  (at level 100, k at level 200, only parsing, right associativity).

(** A pure computation that may throw. *)
Definition lift {A} (r : Result A) : M A := λ w, (r, w).

(** [try { body } catch (error) { handler error }]. *)
Definition tryCatch {A} (body : M A) (handler : string → M A) : M A := λ w,
  match body w with
  | (Throw e, w') => handler e w'
  | other => other
  end.

(** [try { body } finally { cleanup }], for a [cleanup] that returns nothing. *)
Definition tryFinally {A} (body : M A) (cleanup : M unit) : M A := λ w,
  match body w with
  | (Diverge, w') => (Diverge, w')
  | (r, w') =>
      match cleanup w' with
      | (Ok _, w'') => (r, w'')
      | (Throw e, w'') => (Throw e, w'')
      | (Diverge, w'') => (Diverge, w'')
      end
  end.

Definition modifyDb (f : AppState → AppState) : M unit := λ w, (Ok tt, setDb (f (db w)) w).

(** [uuid()] and [new Date()]. *)
Definition newUuid : M string := λ w,
  (Ok (uuid P (uuidCount w)),
   {| db := db w; inFlight := inFlight w; disk := disk w; trace := trace w;
      uuidCount := S (uuidCount w); clock := clock w |}).

Definition newDate : M JsDate := λ w,
  (Ok (dateNow P (clock w)),
   {| db := db w; inFlight := inFlight w; disk := disk w; trace := trace w;
      uuidCount := uuidCount w; clock := S (clock w) |}).

(** File-system accesses; each leaves its event in the trace. *)
Definition fs_existsSync (p : string) : M bool := λ w,
  (Ok (existsSync P (disk w) p), logged (EvExists p) w).

Definition fs_statIsDirectory (p : string) : M (option bool) := λ w,
  (Ok (statIsDirectory P (disk w) p), logged (EvStat p) w).

Definition fs_statSize (p : string) : M Z := λ w,
  (statSize P (disk w) p, logged (EvStat p) w).

Definition fs_readFile (p : string) : M string := λ w,
  (readFile P (disk w) p, logged (EvReadFile p) w).

Definition fs_hashFile (p : string) : M string := λ w,
  (hashFile P (disk w) p, logged (EvHashFile p) w).

Definition fs_walkFiles (p : string) : M (list string) := λ w,
  (walkFiles P (disk w) p, logged (EvWalk p) w).

Definition fs_update (e : FsEvent) (op : Disk P → Result unit * Disk P) : M unit := λ w,
  let (r, d) := op (disk w) in (r, setDisk d (logged e w)).

Definition fs_ensureDir (p : string) : M unit := fs_update (EvEnsureDir p) (ensureDir P p).

Definition fs_copyFileWithRetries (source dest : string) (attempts : nat) : M unit :=
  fs_update (EvCopy source dest) (copyFileWithRetries P source dest attempts).

Definition fs_writeFile (p content : string) : M unit :=
  fs_update (EvWriteFile p) (writeFile P p content).

Definition fs_removeDirSafe (p : string) : M unit :=
  fs_update (EvRemoveDir p) (removeDirSafe P p).

Definition fs_persistDb : M unit := λ w,
  fs_update EvPersist (persistDb P (db w)) w.

(** ** Index helpers ([gameService], [saveLocationService], [eventLogService]) *)

(** Modelled from the spec: [getStoredGameById] of [gameService] is not among
    the sources; the index is "a flat collection of rows keyed by id", and the
    tests of the backup service stub it as the first game with that id. *)
Definition getStoredGameById (s : AppState) (gameId : string) : option StoredGame :=
  find (λ game, String.eqb (game_id game) gameId) (games s).

(** Modelled from the spec: [listSaveLocations] of [saveLocationService] is not
    among the sources; the save locations of a game are the rows that carry
    its [game_id]. *)
Definition listSaveLocations (s : AppState) (gameId : string) : list SaveLocation :=
  filter (λ loc, loc_game_id loc = gameId) (saveLocations s).

(** Modelled from the spec: [updateGameStatus] of [gameService] is not among
    the sources; a game is "mutated by status updates". *)
Definition updateGameStatus (gameId : string) (status : GameStatus) (s : AppState) : AppState :=
  {| games :=
       map (λ game,
              if String.eqb (game_id game) gameId
              then {| game_id := game_id game; game_name := game_name game;
                      game_install_path := game_install_path game;
                      game_exe_path := game_exe_path game;
                      game_created_at := game_created_at game;
                      game_status := status;
                      game_folder_name := game_folder_name game |}
              else game) (games s);
     saveLocations := saveLocations s;
     snapshots := snapshots s;
     snapshotFiles := snapshotFiles s;
     eventLogs := eventLogs s |}.

(** Modelled from the spec: [logEvent] of [eventLogService] is not among the
    sources; the event log is append-only. *)
Definition logEvent (gameId : option string) (type : EventLogType) (message : string)
    (s : AppState) : AppState :=
  {| games := games s;
     saveLocations := saveLocations s;
     snapshots := snapshots s;
     snapshotFiles := snapshotFiles s;
     eventLogs := eventLogs s ++ [{| log_game_id := gameId; log_type := type;
                                     log_message := message |}] |}.

(** ** [backupService] *)

Definition SNAPSHOT_MANIFEST_FILE_NAME : string := "snapshot.manifest.json".

Definition normalizePathForKey (targetPath : string) : string :=
  let normalized := path_resolve P [path_normalize P targetPath] in
  if win32 P then toLowerCase normalized else normalized.

Definition isDirectoryPath (targetPath : string) : M bool :=
  present ← fs_existsSync targetPath;
  if negb present then ret false
  else
    stats ← fs_statIsDirectory targetPath;
    ret (default false stats).

Definition assertPathWithinRoot (rootPath targetPath context : string) : Result unit :=
  let normalizedRoot := normalizePathForKey rootPath in
  let normalizedTarget := normalizePathForKey targetPath in
  let normalizedRootWithSeparator :=
    if endsWith normalizedRoot (path_sep P)
    then normalizedRoot
    else normalizedRoot +:+ path_sep P in
  if String.eqb normalizedTarget normalizedRoot
     || startsWith normalizedTarget normalizedRootWithSeparator
  then Ok tt
  else Throw (context +:+ " resolves outside its allowed root.").

(** The containment that the guard is specified to enforce: after
    normalization, the target is the root or begins with the root followed by
    a separator. *)
Definition specWithinRoot (rootPath targetPath : string) : bool :=
  String.eqb (normalizePathForKey targetPath) (normalizePathForKey rootPath)
  || startsWith (normalizePathForKey targetPath) (normalizePathForKey rootPath +:+ path_sep P).

Definition resolveSnapshotFileAbsolutePath (snapshotRoot : string) (file : SnapshotFile)
    (manifest : SnapshotManifestPayload) : Result string :=
  match ml_storage_folder <$> m_locations manifest !! file_location_id file with
  | Some storageFolder =>
      if isEmpty (trim storageFolder)
      then Throw ("Snapshot manifest is missing storage mapping for location "
                  +:+ dquote +:+ file_location_id file +:+ dquote +:+ ".")
      else
        let absolutePath :=
          path_resolve P [snapshotRoot; storageFolder; file_relative_path file] in
        match assertPathWithinRoot snapshotRoot absolutePath "Snapshot file path" with
        | Ok _ => Ok absolutePath
        | Throw e => Throw e
        | Diverge => Diverge
        end
  | None =>
      Throw ("Snapshot manifest is missing storage mapping for location "
             +:+ dquote +:+ file_location_id file +:+ dquote +:+ ".")
  end.

(** *** Reading and writing the manifest *)

Definition parseSaveLocationType (v : option JSON) : option SaveLocationType :=
  match v with
  | Some (JString s) =>
      if String.eqb s "file" then Some TypeFile
      else if String.eqb s "folder" then Some TypeFolder
      else None
  | _ => None
  end.

Definition parseSnapshotReason (v : option JSON) : option SnapshotReason :=
  match v with
  | Some (JString s) =>
      if String.eqb s "auto" then Some ReasonAuto
      else if String.eqb s "manual" then Some ReasonManual
      else if String.eqb s "pre-restore" then Some ReasonPreRestore
      else None
  | _ => None
  end.

(** One entry of [parsed.locations]; [None] is the [continue] of the loop. *)
Definition parseManifestLocation (value : JSON) : option SnapshotManifestLocation :=
  match value with
  | JObject candidate =>
      match getField candidate "path", parseSaveLocationType (getField candidate "type"),
            getField candidate "auto_detected", getField candidate "enabled",
            getField candidate "storage_folder" with
      | Some (JString p), Some t, Some (JBool a), Some (JBool e), Some (JString folder) =>
          if isEmpty (trim folder) then None
          else Some {| ml_path := p; ml_type := t; ml_auto_detected := a;
                       ml_enabled := e; ml_storage_folder := trim folder |}
      | _, _, _, _, _ => None
      end
  | _ => None
  end.

Definition normalizeManifestLocations (locations : JSON)
  : gmap string SnapshotManifestLocation :=
  foldl (λ normalized entry,
           match parseManifestLocation entry.2 with
           | Some location => <[entry.1 := location]> normalized
           | None => normalized
           end) ∅ (entries locations).

(** The checks [readSnapshotManifest] makes on the parsed document, in the
    order of the source. A root that is not an object has none of the
    properties read from it (or, for [null], throws on the first read). *)
Definition validateSnapshotManifest (parsed : JSON) : option SnapshotManifestPayload :=
  match parsed with
  | JObject fields =>
      match getField fields "version" with
      | Some (JNumber version) =>
          if negb (version =? 2)%float then None else
          match getField fields "snapshot_id" with
          | Some (JString snapshot_id) =>
              if isEmpty (trim snapshot_id) then None else
              match getField fields "created_at" with
              | Some (JString created_at) =>
                  if isEmpty (trim created_at) then None else
                  match parseSnapshotReason (getField fields "reason") with
                  | Some reason =>
                      match getField fields "locations" with
                      | Some ((JObject _ | JArray _) as locations) =>
                          let normalized := normalizeManifestLocations locations in
                          match dateParse P created_at with
                          | Some createdAt =>
                              Some {| m_snapshot_id := trim snapshot_id;
                                      m_created_at := toISOString createdAt;
                                      m_reason := reason;
                                      m_locations := normalized |}
                          | None => None
                          end
                      | _ => None
                      end
                  | None => None
                  end
              | _ => None
              end
          | _ => None
          end
      | _ => None
      end
  | _ => None
  end.

Definition readSnapshotManifest (snapshotRoot : string) : M (option SnapshotManifestPayload) :=
  let manifestPath := path_join P [snapshotRoot; SNAPSHOT_MANIFEST_FILE_NAME] in
  present ← fs_existsSync manifestPath;
  if negb present then ret None
  else
    tryCatch
      (raw ← fs_readFile manifestPath;
       match JSON_parse P raw with
       | Some parsed => ret (validateSnapshotManifest parsed)
       | None => throw "SyntaxError"
       end)
      (λ _, ret None).

Definition reasonToString (reason : SnapshotReason) : string :=
  match reason with
  | ReasonAuto => "auto"
  | ReasonManual => "manual"
  | ReasonPreRestore => "pre-restore"
  end.

Definition typeToString (type : SaveLocationType) : string :=
  match type with TypeFile => "file" | TypeFolder => "folder" end.

Definition manifestLocationJson (location : SaveLocation) (storageFolder : string) : JSON :=
  JObject [("path", JString (loc_path location));
           ("type", JString (typeToString (loc_type location)));
           ("auto_detected", JBool (loc_auto_detected location));
           ("enabled", JBool (loc_enabled location));
           ("storage_folder", JString storageFolder)].

Definition writeSnapshotManifest (snapshotRoot : string) (snapshot : Snapshot)
    (locations : list SaveLocation) (locationStorageFolders : gmap string string) : M unit :=
  let payloadLocations :=
    foldl (λ fields location,
             let storageFolder :=
               default (loc_id location) (locationStorageFolders !! loc_id location) in
             setField fields (loc_id location) (manifestLocationJson location storageFolder))
          [] locations in
  let payload :=
    JObject [("version", JNumber 2);
             ("snapshot_id", JString (snap_id snapshot));
             ("created_at", JString (snap_created_at snapshot));
             ("reason", JString (reasonToString (snap_reason snapshot)));
             ("locations", JObject payloadLocations)] in
  let manifestPath := path_join P [snapshotRoot; SNAPSHOT_MANIFEST_FILE_NAME] in
  fs_writeFile manifestPath (JSON_stringify P payload).

(** *** Checksum, deletion, retention *)

Definition snapshotFileLine (file : SnapshotFile) : string :=
  file_location_id file +:+ ":" +:+ file_relative_path file +:+ ":"
  +:+ file_checksum file +:+ ":" +:+ numberToString (file_size_bytes file).

Definition computeSnapshotChecksum (files : list SnapshotFile) : string :=
  let payload :=
    join "|"
      (map snapshotFileLine
         (Js.sort (λ a b, bool_decide
                     (localeCompare P (file_relative_path a) (file_relative_path b) = Gt))
                  files)) in
  hashText P payload.

Definition findSnapshot (s : AppState) (snapshotId : string) : option Snapshot :=
  find (λ item, String.eqb (snap_id item) snapshotId) (snapshots s).

(** [log] is [options.log !== false]. *)
Definition deleteSnapshot (snapshotId : string) (log : bool) : M unit := λ w,
  match findSnapshot (db w) snapshotId with
  | None => (Ok tt, w)
  | Some snapshot =>
      (fs_removeDirSafe (snap_storage_path snapshot);;
       modifyDb (λ s,
         {| games := games s;
            saveLocations := saveLocations s;
            snapshots := filter (λ item, snap_id item ≠ snapshotId) (snapshots s);
            snapshotFiles :=
              filter (λ item, file_snapshot_id item ≠ snapshotId) (snapshotFiles s);
            eventLogs := eventLogs s |});;
       fs_persistDb;;
       if log
       then modifyDb (logEvent (Some (snap_game_id snapshot)) EventBackup "Snapshot deleted.")
       else ret tt) w
  end.

Fixpoint deleteSnapshots (toRemove : list Snapshot) : M unit :=
  match toRemove with
  | [] => ret tt
  | snapshot :: rest => deleteSnapshot (snap_id snapshot) false;; deleteSnapshots rest
  end.

(** [rows.filter((snapshot) => snapshot.game_id === gameId)]. *)
Definition snapshotsOfGame (rows : list Snapshot) (gameId : string) : list Snapshot :=
  filter (λ snapshot, snap_game_id snapshot = gameId) rows.

(** The comparator [right.created_at.localeCompare(left.created_at)] is
    positive: [left] has to come after [right]. *)
Definition olderThan (left right : Snapshot) : bool :=
  bool_decide (localeCompare P (snap_created_at right) (snap_created_at left) = Gt).

(** The snapshots of a game, most recent first. *)
Definition snapshotsByRecency (rows : list Snapshot) (gameId : string) : list Snapshot :=
  Js.sort olderThan (snapshotsOfGame rows gameId).

Definition applyRetentionPolicy (settings : Settings) (gameId : string) : M unit := λ w,
  let retentionCount := Z.max 1 (retentionCount settings) in
  let snapshots := snapshotsByRecency (snapshots (db w)) gameId in
  let toRemove := drop (Z.to_nat retentionCount) snapshots in
  deleteSnapshots toRemove w.

(** *** Verification *)

Definition filesOfSnapshot (s : AppState) (snapshotId : string) : list SnapshotFile :=
  filter (λ item, file_snapshot_id item = snapshotId) (snapshotFiles s).

(** The loop of [verifySnapshot] over the files still to check. *)
Fixpoint verifyFiles (snapshotRoot : string) (manifest : SnapshotManifestPayload)
    (files : list SnapshotFile) (issues : Z) : M Z :=
  match files with
  | [] => ret issues
  | file :: rest =>
      absolutePath ← lift (resolveSnapshotFileAbsolutePath snapshotRoot file manifest);
      present ← fs_existsSync absolutePath;
      if negb present then verifyFiles snapshotRoot manifest rest (issues + 1)
      else
        checksum ← fs_hashFile absolutePath;
        verifyFiles snapshotRoot manifest rest
          (if String.eqb checksum (file_checksum file) then issues else issues + 1)
  end.

Definition verifySnapshot (snapshotId : string) : M VerifyResult := λ w,
  match findSnapshot (db w) snapshotId with
  | None => (Throw "Snapshot not found", w)
  | Some snapshot =>
      let files := filesOfSnapshot (db w) snapshotId in
      (manifest ← readSnapshotManifest (snap_storage_path snapshot);
       match manifest with
       | None => throw "Snapshot manifest is missing or invalid."
       | Some manifest =>
           issues ← verifyFiles (snap_storage_path snapshot) manifest files 0;
           ret {| ok := (issues =? 0)%Z; issues := issues |}
       end) w
  end.

(** *** Backup *)

Definition isPathSeparator (c : ascii) : bool :=
  (nat_of_ascii c =? 92) || (nat_of_ascii c =? 47).

Definition resolveLocationStorageFolderBase (location : SaveLocation) : string :=
  let trimmed := dropWhileEnd isPathSeparator (loc_path location) in
  let name := path_basename P trimmed in
  let fallback := match loc_type location with TypeFile => "File" | TypeFolder => "Folder" end in
  let safe := toSafeGameFolderName P (if isEmpty name then fallback else name) in
  if isEmpty safe then fallback else safe.

(** The [while] loop of [ensureUniqueFolderName]; [None] when the fuel runs out. *)
Fixpoint ensureUniqueFolderNameLoop (fuel : nat) (base : string) (used : gset string)
    (candidate : string) (suffix : Z) : option string :=
  match fuel with
  | O => None
  | S fuel' =>
      if bool_decide (toLowerCase candidate ∈ used)
      then ensureUniqueFolderNameLoop fuel' base used
             (base +:+ " (" +:+ numberToString suffix +:+ ")") (suffix + 1)
      else Some candidate
  end.

Definition ensureUniqueFolderName (fuel : nat) (base : string) (used : gset string)
  : option (string * gset string) :=
  match ensureUniqueFolderNameLoop fuel base used base 2 with
  | Some candidate => Some (candidate, {[toLowerCase candidate]} ∪ used)
  | None => None
  end.

Fixpoint buildLocationStorageFoldersFrom (fuel : nat) (locations : list SaveLocation)
    (folders : gmap string string) (used : gset string) : option (gmap string string) :=
  match locations with
  | [] => Some folders
  | location :: rest =>
      match ensureUniqueFolderName fuel (resolveLocationStorageFolderBase location) used with
      | Some (unique, used') =>
          buildLocationStorageFoldersFrom fuel rest (<[loc_id location := unique]> folders) used'
      | None => None
      end
  end.

Definition buildLocationStorageFolders (fuel : nat) (locations : list SaveLocation)
  : option (gmap string string) :=
  buildLocationStorageFoldersFrom fuel locations ∅ ∅.

Definition pad2 (value : Z) : string := padStart0 2 (numberToString value).
Definition pad3 (value : Z) : string := padStart0 3 (numberToString value).

Definition formatSnapshotTimestamp (isoTimestamp : string) : M string :=
  timestamp ← match dateParse P isoTimestamp with
              | Some parsed => ret parsed
              | None => newDate
              end;
  ret (numberToString (getFullYear timestamp) +:+ "-" +:+ pad2 (getMonth timestamp + 1)
       +:+ "-" +:+ pad2 (getDate timestamp) +:+ "_" +:+ pad2 (getHours timestamp)
       +:+ "-" +:+ pad2 (getMinutes timestamp) +:+ "-" +:+ pad2 (getSeconds timestamp)
       +:+ "-" +:+ pad3 (getMilliseconds timestamp)).

(** The [while] loop of [resolveUniqueSnapshotFolderName]. *)
Fixpoint resolveUniqueSnapshotFolderNameLoop (fuel : nat) (storageRoot gameFolder base : string)
    (candidate : string) (suffix : Z) : M string :=
  match fuel with
  | O => λ w, (Diverge, w)
  | S fuel' =>
      taken ← isDirectoryPath (getSnapshotRoot P storageRoot gameFolder candidate);
      if taken
      then resolveUniqueSnapshotFolderNameLoop fuel' storageRoot gameFolder base
             (base +:+ "_" +:+ numberToString suffix) (suffix + 1)
      else ret candidate
  end.

Definition resolveUniqueSnapshotFolderName (fuel : nat) (storageRoot gameFolder createdAt : string)
  : M string :=
  base ← formatSnapshotTimestamp createdAt;
  resolveUniqueSnapshotFolderNameLoop fuel storageRoot gameFolder base base 2.

Definition listFilesForLocation (location : SaveLocation) : M (list string) :=
  match loc_type location with
  | TypeFile => ret [loc_path location]
  | TypeFolder => fs_walkFiles (loc_path location)
  end.

(** A [for (const item of items)] loop that updates local variables [b]. *)
Fixpoint forEach {A B} (step : B → A → M B) (items : list A) (b : B) : M B :=
  match items with
  | [] => ret b
  | item :: rest => b' ← step b item; forEach step rest b'
  end.

(** The local variables of [backupGame] that its loops update. *)
Record BackupTally := {
  tally_files : list SnapshotFile;
  tally_size : Z;
  tally_warnings : Z
}.

Definition backupFile (snapshotRoot snapshotId : string) (location : SaveLocation)
    (locationStorageFolders : gmap string string) (tally : BackupTally) (filePath : string)
  : M BackupTally :=
  let relativePath :=
    match loc_type location with
    | TypeFile => path_basename P filePath
    | TypeFolder => path_relative P (loc_path location) filePath
    end in
  let locationFolder := default (loc_id location) (locationStorageFolders !! loc_id location) in
  let destPath := path_join P [snapshotRoot; locationFolder; relativePath] in
  fs_copyFileWithRetries filePath destPath 4;;
  size ← fs_statSize destPath;
  checksum ← fs_hashFile destPath;
  id ← newUuid;
  ret {| tally_files :=
           tally_files tally ++
           [{| file_id := id; file_snapshot_id := snapshotId;
               file_location_id := loc_id location; file_relative_path := relativePath;
               file_size_bytes := size; file_checksum := checksum |}];
         tally_size := tally_size tally + size;
         tally_warnings := tally_warnings tally |}.

Definition backupLocation (gameId snapshotRoot snapshotId : string)
    (locationStorageFolders : gmap string string) (tally : BackupTally) (location : SaveLocation)
  : M BackupTally :=
  present ← fs_existsSync (loc_path location);
  if negb present
  then
    modifyDb (logEvent (Some gameId) EventError ("Save location missing: " +:+ loc_path location));;
    ret {| tally_files := tally_files tally; tally_size := tally_size tally;
           tally_warnings := tally_warnings tally + 1 |}
  else
    files ← listFilesForLocation location;
    forEach (backupFile snapshotRoot snapshotId location locationStorageFolders) files tally.

Definition pushSnapshot (snapshot : Snapshot) (files : list SnapshotFile) (s : AppState)
  : AppState :=
  {| games := games s;
     saveLocations := saveLocations s;
     snapshots := snapshots s ++ [snapshot];
     snapshotFiles := snapshotFiles s ++ files;
     eventLogs := eventLogs s |}.

(** The [try] block of [backupGame]. *)
Definition backupBody (fuel : nat) (settings : Settings) (gameId : string)
    (reason : SnapshotReason) (skipRetention : bool)
    (snapshotId createdAt snapshotRoot : string) : M (option Snapshot) :=
  fs_ensureDir snapshotRoot;;
  λ w,
  let locations := filter (λ loc, loc_enabled loc = true) (listSaveLocations (db w) gameId) in
  match buildLocationStorageFolders fuel locations with
  | None => (Diverge, w)
  | Some locationStorageFolders =>
      (if bool_decide (locations = [])
       then
         modifyDb (updateGameStatus gameId StatusWarning);;
         modifyDb (logEvent (Some gameId) EventError "Backup skipped: no enabled save locations.");;
         ret None
       else
         tally ← forEach (backupLocation gameId snapshotRoot snapshotId locationStorageFolders)
                   locations {| tally_files := []; tally_size := 0; tally_warnings := 0 |};
         if bool_decide (tally_files tally = [])
         then
           modifyDb (updateGameStatus gameId StatusWarning);;
           modifyDb (logEvent (Some gameId) EventError
                       "Backup skipped: no files found in enabled save locations.");;
           fs_removeDirSafe snapshotRoot;;
           ret None
         else
           let snapshot :=
             {| snap_id := snapshotId; snap_game_id := gameId; snap_created_at := createdAt;
                snap_size_bytes := tally_size tally;
                snap_checksum := computeSnapshotChecksum (tally_files tally);
                snap_storage_path := snapshotRoot; snap_reason := reason |} in
           writeSnapshotManifest snapshotRoot snapshot locations locationStorageFolders;;
           modifyDb (pushSnapshot snapshot (tally_files tally));;
           fs_persistDb;;
           (if skipRetention then ret tt else applyRetentionPolicy settings gameId);;
           modifyDb (updateGameStatus gameId
                       (if (0 <? tally_warnings tally)%Z then StatusWarning else StatusProtected));;
           modifyDb (logEvent (Some gameId) EventBackup
                       ("Snapshot created (" +:+ reasonToString reason +:+ ")."));;
           ret (Some snapshot)) w
  end.

(** [error.message || error] inside a template string. *)
Definition errorText (message : string) : string :=
  if isEmpty message then "Error" else message.

(** The [catch] block of [backupGame]. *)
Definition backupRollback (gameId snapshotRoot : string) (error : string) : M (option Snapshot) :=
  modifyDb (updateGameStatus gameId StatusWarning);;
  modifyDb (logEvent (Some gameId) EventError ("Backup failed: " +:+ errorText error));;
  fs_removeDirSafe snapshotRoot;;
  throw error.

Definition backupGame (fuel : nat) (settings : Settings) (gameId : string)
    (reason : SnapshotReason) (skipRetention : bool) : M (option Snapshot) := λ w,
  if bool_decide (gameId ∈ inFlight w) then (Ok None, w)
  else
    let w := setInFlight ({[gameId]} ∪ inFlight w) w in
    match getStoredGameById (db w) gameId with
    | None => (Throw "Game not found", setInFlight (inFlight w ∖ {[gameId]}) w)
    | Some game =>
        (snapshotId ← newUuid;
         now ← newDate;
         let createdAt := toISOString now in
         snapshotFolder ← resolveUniqueSnapshotFolderName fuel (storageRoot settings)
                            (game_folder_name game) createdAt;
         let snapshotRoot :=
           getSnapshotRoot P (storageRoot settings) (game_folder_name game) snapshotFolder in
         tryFinally
           (tryCatch
              (backupBody fuel settings gameId reason skipRetention
                 snapshotId createdAt snapshotRoot)
              (backupRollback gameId snapshotRoot))
           (λ w', (Ok tt, setInFlight (inFlight w' ∖ {[gameId]}) w'))) w
    end.

(** *** Restore *)

(** [new Map(saveLocations.map((loc) => [loc.id, loc]))]. *)
Definition locationMapOf (saveLocations : list SaveLocation) : gmap string SaveLocation :=
  foldl (λ m loc, <[loc_id loc := loc]> m) ∅ saveLocations.

(** The loop of [restoreSnapshot] over the files still to restore. *)
Fixpoint restoreFiles (snapshotRoot : string) (manifest : SnapshotManifestPayload)
    (locationMap : gmap string SaveLocation) (files : list SnapshotFile) : M unit :=
  match files with
  | [] => ret tt
  | file :: rest =>
      match locationMap !! file_location_id file with
      | Some location =>
          if negb (loc_enabled location)
          then restoreFiles snapshotRoot manifest locationMap rest
          else
            sourcePath ← lift (resolveSnapshotFileAbsolutePath snapshotRoot file manifest);
            present ← fs_existsSync sourcePath;
            if negb present then restoreFiles snapshotRoot manifest locationMap rest
            else
              let destRoot :=
                match loc_type location with
                | TypeFile => path_dirname P (loc_path location)
                | TypeFolder => loc_path location
                end in
              let destPath := path_resolve P [destRoot; file_relative_path file] in
              lift (assertPathWithinRoot destRoot destPath "Restore destination path");;
              fs_copyFileWithRetries sourcePath destPath 3;;
              restoreFiles snapshotRoot manifest locationMap rest
      | None => restoreFiles snapshotRoot manifest locationMap rest
      end
  end.

Definition restoreSnapshot (fuel : nat) (settings : Settings) (snapshotId : string)
  : M unit := λ w,
  match findSnapshot (db w) snapshotId with
  | None => (Throw "Snapshot not found", w)
  | Some snapshot =>
      let gameId := snap_game_id snapshot in
      let saveLocations := listSaveLocations (db w) gameId in
      let locationMap := locationMapOf saveLocations in
      let files := filesOfSnapshot (db w) snapshotId in
      (manifest ← readSnapshotManifest (snap_storage_path snapshot);
       match manifest with
       | None => throw "Snapshot manifest is missing or invalid."
       | Some manifest =>
           safetySnapshot ← backupGame fuel settings gameId ReasonPreRestore true;
           match safetySnapshot with
           | None => throw "Restore blocked: failed to create safety backup before restore."
           | Some _ =>
               restoreFiles (snap_storage_path snapshot) manifest locationMap files;;
               modifyDb (logEvent (Some gameId) EventRestore
                           ("Snapshot restored (" +:+ snap_created_at snapshot +:+ ")."))
           end
       end) w
  end.

(** *** What a run leaves alone *)

(** [always R m]: however [m] completes, the world it leaves is related by
    [R] to the world it started in. *)
Definition always {A} (R : relation World) (m : M A) : Prop :=
  ∀ w r w', m w = (r, w') → R w w'.

(** [keeps f m]: the observation [f] of the world is what it was before. *)
Definition keeps {A X} (f : World → X) (m : M A) : Prop :=
  always (λ w w', f w' = f w) m.

(** From [w] to [w'] the file system was accessed, but no file was copied or
    written. *)
Definition noFileWritten (w w' : World) : Prop :=
  ∃ t, trace w' = trace w ++ t ∧ Forall (λ e, writesFile e = false) t.

End BackupService.

Arguments always {P A} R m.
Arguments keeps {P A X} f m.
Arguments noFileWritten {P} w w'.

(** * [catalogSaveDetectionService] *)

Inductive DetectionStatus :=
| CatalogMissing
| CatalogInvalid
| NoMatch
| NoWindowsLocations
| NoValidCandidates
| Matched.

Record CatalogLocation := { system : string; location : string }.

Record ParsedCatalogEntry := {
  title : string;
  saveLocations_of : list CatalogLocation
}.

Record ExeMetadata := {
  productName : option string;
  fileDescription : option string
}.

Inductive CandidateSource := SourceFilesystem | SourceRegistry.

Record CatalogSavePathCandidate := {
  cand_path : string;
  cand_score : float;
  cand_source : CandidateSource;
  cand_rawLocation : string;
  cand_reasons : list string
}.

(** What the progress callback receives. The [debug] envelope, diagnostic
    only, is left out of the model. *)
Record CatalogSaveDetectionProgress := {
  percent : float;
  processed : Z;
  total : Z;
  message : string;
  progress_matchedTitle : option string
}.

Record CatalogSaveDetectionResult := {
  status : DetectionStatus;
  matchedTitle : option string;
  matchScore : float;
  titleAmbiguous : bool;
  candidates : list CatalogSavePathCandidate;
  metadata : option ExeMetadata;
  warnings : list string
}.

(** A progress callback: given the payloads it has been called with before
    and the new one, it returns or throws. *)
Definition ProgressCallback : Type :=
  list CatalogSaveDetectionProgress → CatalogSaveDetectionProgress → Result unit.

Record CatalogSaveDetectionInput := {
  catalogPath : string;
  gameName : string;
  exePath : string;
  installPath : string;
  onProgress : option ProgressCallback
}.

(** The adapters a caller may inject; a [Throw] is a rejected promise. *)
Record CatalogDetectionAdapters := {
  adapter_readExeMetadata : option (string → Result (option ExeMetadata));
  adapter_readRegistryValues : option (string → Result (list string));
  adapter_listSteamLibraries : option (Result (list string));
  adapter_loadCatalogEntries : option (string → Result (option (list ParsedCatalogEntry)))
}.

Record ResolveContext := {
  ctx_installPath : string;
  ctx_gameName : string;
  ctx_steamLibraries : list string
}.

Record CatalogCacheEntry := {
  mtimeMs : float;
  cached_entries : list ParsedCatalogEntry
}.

(** What the detector reaches on the host besides [Platform]: the modification
    time of a file, [path.parse(p).name], the default adapters (PowerShell,
    [reg query], Steam's library file), and the two steps of rule resolution
    that walk the environment and the file system: [expandLocationTemplate]
    and [scoreCandidatePath]. *)
Record DetectorHost := {
  statMtimeMs : string → option float;
  path_parse_name : string → string;
  readExeMetadataFromFile : string → Result (option ExeMetadata);
  readRegistryValuesFromKey : string → Result (list string);
  detectSteamLibraries : Result (list string);
  expandLocationTemplate : string → ResolveContext → list string;
  scoreCandidatePath : string → CandidateSource → string → option CatalogSavePathCandidate
}.

(** ** Pure helpers *)

(** [dedupeStrings]; [seen] holds the lower-cased keys met so far. *)
Fixpoint dedupeStringsFrom (values : list string) (seen : list string) : list string :=
  match values with
  | [] => []
  | value :: rest =>
      let trimmed := trim value in
      if isEmpty trimmed then dedupeStringsFrom rest seen
      else
        let key := toLowerCase trimmed in
        if existsb (String.eqb key) seen then dedupeStringsFrom rest seen
        else trimmed :: dedupeStringsFrom rest (key :: seen)
  end.

Definition dedupeStrings (values : list string) : list string :=
  dedupeStringsFrom values [].

Definition romanNumerals : list (string * string) :=
  [("xx", "20"); ("xix", "19"); ("xviii", "18"); ("xvii", "17"); ("xvi", "16");
   ("xv", "15"); ("xiv", "14"); ("xiii", "13"); ("xii", "12"); ("xi", "11");
   ("x", "10"); ("ix", "9"); ("viii", "8"); ("vii", "7"); ("vi", "6"); ("v", "5");
   ("iv", "4"); ("iii", "3"); ("ii", "2"); ("i", "1")].

Definition normalizeTitle (value : string) : string :=
  let romanNormalized :=
    foldl (λ text numeral, replaceWord numeral.1 numeral.2 text)
          (toLowerCase value) romanNumerals in
  trim
    (replaceRuns isSpace " "
       (replaceRuns (λ c, negb (isLower c || isDigit c)) " "
          (replaceAll "game of the year" "goty"
             (replaceAll "definitive edition" "de" romanNormalized)))).

Definition tokensOf (normalized : string) : list string :=
  filter (λ token, token ≠ "") (splitOn (λ c, Ascii.eqb c " ") normalized).

Definition scoreTitleSimilarity (left right : string) : float :=
  let leftNorm := normalizeTitle left in
  let rightNorm := normalizeTitle right in
  if isEmpty leftNorm || isEmpty rightNorm then 0%float
  else if String.eqb leftNorm rightNorm then 1%float
  else
    let leftTokens := tokensOf leftNorm in
    let rightTokens := tokensOf rightNorm in
    if bool_decide (leftTokens = []) || bool_decide (rightTokens = []) then 0%float
    else
      let leftSet := setOf leftTokens [] in
      let rightSet := setOf rightTokens [] in
      let overlap :=
        length (filter (λ token, existsb (String.eqb token) rightSet = true) leftSet) in
      let union := length (setOf (leftSet ++ rightSet) []) in
      let jaccard :=
        if (0 <? union)%nat then (ofZ (Z.of_nat overlap) / ofZ (Z.of_nat union))%float
        else 0%float in
      let containsBonus :=
        if includes leftNorm rightNorm || includes rightNorm leftNorm
        then 0.15%float else 0%float in
      fmin 1 (jaccard + containsBonus).

(** *** Splitting a composite location *)

Definition startsWithIgnoreCase (text p : string) : bool :=
  String.prefix (toLowerCase p) (toLowerCase text).

(** [<[^>]+>] or [%[^%]+%] at the front of [text], for the delimiters
    [opening] and [closing]: the length of the match. *)
Definition delimitedAtFront (opening closing : ascii) (text : string) : option nat :=
  match text with
  | String c rest =>
      if Ascii.eqb c opening then
        let inner := String.length rest
                     - String.length (dropWhile (λ x, negb (Ascii.eqb x closing)) rest) in
        match dropWhile (λ x, negb (Ascii.eqb x closing)) rest with
        | String _ _ => if (0 <? inner)%nat then Some (inner + 2) else None
        | EmptyString => None
        end
      else None
  | EmptyString => None
  end.

Definition registryRootPrefixes : list string :=
  ["HKEY_CURRENT_USER\"; "HKEY_LOCAL_MACHINE\"; "HKCU\"; "HKLM\"].

(** [LOCATION_SPLIT_START_PATTERN] matched at the front of [text]: the
    length of the match of the first alternative that applies. *)
Definition locationStartAtFront (text : string) : option nat :=
  match delimitedAtFront "<" ">" text with
  | Some n => Some n
  | None =>
      match delimitedAtFront "%" "%" text with
      | Some n => Some n
      | None =>
          match find (startsWithIgnoreCase text) registryRootPrefixes with
          | Some root => Some (String.length root)
          | None =>
              match text with
              | String c (String colon (String slash _)) =>
                  if (isUpper c || isLower c) && Ascii.eqb colon ":" && Ascii.eqb slash "\"
                  then Some 3 else None
              | _ => None
              end
          end
      end
  end.

Definition isSplitSeparator (c : ascii) : bool :=
  isSpace c || Ascii.eqb c "," || Ascii.eqb c ";" || Ascii.eqb c "|".

(** The loop over [normalized.matchAll(LOCATION_SPLIT_START_PATTERN)]: the
    indices of the matches that start the text or follow a separator.
    [skip] counts the characters of the current match still to pass. *)
Fixpoint locationStarts (text : string) (index : nat) (previous : option ascii) (skip : nat)
  : list nat :=
  match text with
  | EmptyString => []
  | String c rest =>
      match skip with
      | S k => locationStarts rest (S index) (Some c) k
      | O =>
          match locationStartAtFront text with
          | Some len =>
              (if (index =? 0)%nat || from_option isSplitSeparator false previous
               then [index] else [])
              ++ locationStarts rest (S index) (Some c) (len - 1)
          | None => locationStarts rest (S index) (Some c) 0
          end
      end
  end.

Definition isListPunctuation (c : ascii) : bool :=
  Ascii.eqb c "," || Ascii.eqb c ";" || Ascii.eqb c "|".

Fixpoint locationSegments (normalized : string) (starts : list nat) : list string :=
  match starts with
  | [] => []
  | start :: later =>
      let stop := match later with next :: _ => next | [] => String.length normalized end in
      let segment :=
        trim (dropWhileEnd isListPunctuation
                (dropWhile isListPunctuation
                   (trim (substring start (stop - start) normalized)))) in
      (if isEmpty segment then [] else [segment]) ++ locationSegments normalized later
  end.

Definition splitCompositeLocation (location : string) : list string :=
  let lf := String (ascii_of_nat 10) EmptyString in
  let cr := String (ascii_of_nat 13) EmptyString in
  let normalized := trim (replaceAll lf " " (replaceAll (cr +:+ lf) " " location)) in
  if isEmpty normalized then []
  else
    let uniqueStarts := locationStarts normalized 0 None 0 in
    if (length uniqueStarts <=? 1)%nat then
      let simpleSplit :=
        filter (λ item, item ≠ "")
          (map trim (splitOn (λ c, Ascii.eqb c ";" || (nat_of_ascii c =? 10)%nat
                                   || (nat_of_ascii c =? 13)%nat) normalized)) in
      if (1 <? length simpleSplit)%nat then simpleSplit else [normalized]
    else
      let segments := locationSegments normalized uniqueStarts in
      if (0 <? length segments)%nat then segments else [normalized].

(** *** Reading the catalog *)

Definition jsonString (v : option JSON) : string :=
  match v with Some (JString s) => trim s | _ => "" end.

(** [item && typeof item === 'object']. *)
Definition isObjectLike (v : JSON) : bool :=
  match v with JObject _ | JArray _ => true | _ => false end.

(** The properties of an object-like value; an array has none of the names
    read here. *)
Definition fieldsOf (v : JSON) : list (string * JSON) :=
  match v with JObject fields => fields | _ => [] end.

Fixpoint dedupeLocations (items : list CatalogLocation) (seen : list string)
  : list CatalogLocation :=
  match items with
  | [] => []
  | item :: rest =>
      let key := toLowerCase (system item) +:+ "|" +:+ toLowerCase (location item) in
      if existsb (String.eqb key) seen then dedupeLocations rest seen
      else item :: dedupeLocations rest (key :: seen)
  end.

Definition normalizeCatalogLocations (input : option JSON) : list CatalogLocation :=
  match input with
  | Some (JArray items) =>
      let expanded :=
        filter (λ item, system item ≠ "" ∧ location item ≠ "")
          (flat_map
             (λ item,
                let sys := jsonString (getField (fieldsOf item) "system") in
                let rawLocation := jsonString (getField (fieldsOf item) "location") in
                map (λ loc, {| system := sys; location := loc |})
                    (splitCompositeLocation rawLocation))
             (filter (λ item, isObjectLike item = true) items)) in
      dedupeLocations expanded []
  | _ => []
  end.

Definition getCatalogGamesArray (input : JSON) : option (list JSON) :=
  match input with
  | JObject record =>
      match getField record "games" with
      | Some (JArray games) => Some games
      | _ => None
      end
  | _ => None
  end.

(** The entries [loadCatalogEntries] builds from the [games] array. *)
Definition parseCatalogEntries (games : list JSON) : list ParsedCatalogEntry :=
  filter (λ entry, title entry ≠ "")
    (map (λ item,
            {| title := jsonString (getField (fieldsOf item) "title");
               saveLocations_of :=
                 normalizeCatalogLocations
                   (getField (fieldsOf item) "save_game_data_locations") |})
         (filter (λ item, isObjectLike item = true) games)).

Definition isRegistryPath (value : string) : bool :=
  existsb (startsWithIgnoreCase (trim value)) registryRootPrefixes.

Definition normalizeRegistryPath (value : string) : string :=
  let trimmed := trim value in
  if startsWithIgnoreCase trimmed "HKCU\"
  then "HKEY_CURRENT_USER" +:+ substring 4 (String.length trimmed - 4) trimmed
  else if startsWithIgnoreCase trimmed "HKLM\"
  then "HKEY_LOCAL_MACHINE" +:+ substring 4 (String.length trimmed - 4) trimmed
  else trimmed.

Definition withReasons (candidate : CatalogSavePathCandidate) (reasons : list string)
  : CatalogSavePathCandidate :=
  {| cand_path := cand_path candidate; cand_score := cand_score candidate;
     cand_source := cand_source candidate; cand_rawLocation := cand_rawLocation candidate;
     cand_reasons := reasons |}.

(** One step of the loop of [mergeCandidatesByPath] on the [Map], kept in
    insertion order. *)
Fixpoint mergeCandidate (byPath : list (string * CatalogSavePathCandidate)) (key : string)
    (candidate : CatalogSavePathCandidate) : list (string * CatalogSavePathCandidate) :=
  match byPath with
  | [] => [(key, candidate)]
  | (k, existing) :: rest =>
      if String.eqb k key then
        let reasons := dedupeStrings (cand_reasons existing ++ cand_reasons candidate) in
        (k, if (cand_score existing <? cand_score candidate)%float
            then withReasons candidate reasons
            else withReasons existing reasons) :: rest
      else (k, existing) :: mergeCandidate rest key candidate
  end.

(** ** The detector *)

Section Detector.

Variable P : Platform.
Variable d : Disk P.
Variable H : DetectorHost.

(** The module-level catalog cache, and the payloads the progress callback
    has been called with. *)
Record DetectorState := {
  catalogCache : gmap string CatalogCacheEntry;
  delivered : list CatalogSaveDetectionProgress
}.

Definition D (A : Type) : Type := DetectorState → Result A * DetectorState.

Definition pureD {A} (a : A) : D A := λ st, (Ok a, st).

Definition liftD {A} (r : Result A) : D A := λ st, (r, st).

Definition bindD {A B} (m : D A) (k : A → D B) : D B := λ st,
  match m st with
  | (Ok a, st') => k a st'
  | (Throw e, st') => (Throw e, st')
  | (Diverge, st') => (Diverge, st')
  end.

Notation "x ← m ; k" := (bindD m (λ x, k))
  (at level 20, m at level 100, k at level 200, only parsing, right associativity).
Notation "m ;; k" := (bindD m (λ _, k))
  (at level 100, k at level 200, only parsing, right associativity).

(** [promise.catch(() => fallback)]. *)
Definition catchDefault {A} (r : Result A) (fallback : A) : Result A :=
  match r with
  | Throw _ => Ok fallback
  | other => other
  end.

Definition mergeCandidatesByPath (input : list CatalogSavePathCandidate)
  : list CatalogSavePathCandidate :=
  let byPath :=
    foldl (λ byPath candidate,
             let key := if win32 P then toLowerCase (cand_path candidate)
                        else cand_path candidate in
             mergeCandidate byPath key candidate) [] input in
  Js.sort (λ left right, (cand_score left <? cand_score right)%float)
          (map (λ entry, entry.2) byPath).

(** [reportProgress]: the callback, when there is one, is called with the
    clamped payload; nothing surrounds the call. *)
Definition reportProgress (callback : option ProgressCallback)
    (payload : CatalogSaveDetectionProgress) : D unit :=
  match callback with
  | None => pureD tt
  | Some call => λ st,
      let sent :=
        {| percent := fmax 0 (fmin 100 (round (percent payload)));
           processed := Z.max 0 (processed payload);
           total := Z.max 1 (total payload);
           message := message payload;
           progress_matchedTitle := progress_matchedTitle payload |} in
      (call (delivered st) sent,
       {| catalogCache := catalogCache st; delivered := delivered st ++ [sent] |})
  end.

Definition loadCatalogEntries (catalogPath : string) (adapters : CatalogDetectionAdapters)
  : D (option (list ParsedCatalogEntry)) :=
  match adapter_loadCatalogEntries adapters with
  | Some load => liftD (load catalogPath)
  | None => λ st,
      if negb (existsSync P d catalogPath) then (Ok None, st)
      else
        match statMtimeMs H catalogPath with
        | None => (Ok None, st)
        | Some mtime =>
            let cacheKey := path_resolve P [catalogPath] in
            let parse :=
              match readFile P d catalogPath with
              | Ok raw =>
                  match JSON_parse P raw with
                  | Some parsed =>
                      match getCatalogGamesArray parsed with
                      | None => (Ok (Some []), st)
                      | Some games =>
                          let entries := parseCatalogEntries games in
                          (Ok (Some entries),
                           {| catalogCache :=
                                <[cacheKey := {| mtimeMs := mtime; cached_entries := entries |}]>
                                  (catalogCache st);
                              delivered := delivered st |})
                      end
                  | None => (Ok (Some []), st)
                  end
              | Throw _ => (Ok (Some []), st)
              | Diverge => (Diverge, st)
              end in
            match catalogCache st !! cacheKey with
            | Some cached =>
                if (mtimeMs cached =? mtime)%float
                then (Ok (Some (cached_entries cached)), st)
                else parse
            | None => parse
            end
        end
  end.

(** The best score of an entry over the queries. *)
Definition entryScore (queryNames : list string) (entry : ParsedCatalogEntry) : float :=
  foldl (λ best query, fmax best (scoreTitleSimilarity query (title entry))) 0%float queryNames.

Definition rankEntries (queryNames : list string) (entries : list ParsedCatalogEntry)
  : list (ParsedCatalogEntry * float) :=
  Js.sort (λ left right, (left.2 <? right.2)%float)
          (map (λ entry, (entry, entryScore queryNames entry)) entries).

Definition windowsLocationsOf (entry : ParsedCatalogEntry) : list string :=
  dedupeStrings
    (filter (λ loc, loc ≠ "")
       (flat_map (λ loc, splitCompositeLocation (trim (location loc)))
          (filter (λ loc, toLowerCase (trim (system loc)) = "windows")
                  (saveLocations_of entry)))).

Definition scoreCandidates (source : CandidateSource) (rawLocation : string)
    (paths : list string) : list CatalogSavePathCandidate :=
  omap (λ candidatePath, scoreCandidatePath H candidatePath source rawLocation) paths.

(** The body of the loop over [windowsLocations] between its two progress
    reports. *)
Definition resolveLocation (adapters : CatalogDetectionAdapters) (context : ResolveContext)
    (rawLocation : string) : Result (list CatalogSavePathCandidate) :=
  if isRegistryPath rawLocation then
    let readRegistryValues :=
      default (readRegistryValuesFromKey H) (adapter_readRegistryValues adapters) in
    match catchDefault (readRegistryValues (normalizeRegistryPath rawLocation)) [] with
    | Ok registryValues =>
        Ok (flat_map (λ registryValue,
                        scoreCandidates SourceRegistry rawLocation
                          (expandLocationTemplate H registryValue context))
                     registryValues)
    | Throw e => Throw e
    | Diverge => Diverge
    end
  else
    Ok (scoreCandidates SourceFilesystem rawLocation
          (expandLocationTemplate H rawLocation context)).

Definition locationPercent (index totalLocations : Z) : float :=
  (20 + round (ofZ index / ofZ (Z.max 1 totalLocations) * 70))%float.

Fixpoint resolveLocations (callback : option ProgressCallback)
    (adapters : CatalogDetectionAdapters) (context : ResolveContext)
    (bestTitle : string) (totalLocations : Z) (index : Z) (rest : list string)
    (resolved : list CatalogSavePathCandidate) : D (list CatalogSavePathCandidate) :=
  match rest with
  | [] => pureD resolved
  | rawLocation :: rest' =>
      if isEmpty rawLocation
      then resolveLocations callback adapters context bestTitle totalLocations
             (index + 1) rest' resolved
      else
        reportProgress callback
          {| percent := locationPercent index totalLocations;
             processed := index; total := totalLocations;
             message := "Checking location " +:+ numberToString (index + 1) +:+ "/"
                        +:+ numberToString totalLocations +:+ "...";
             progress_matchedTitle := Some bestTitle |};;
        found ← liftD (resolveLocation adapters context rawLocation);
        reportProgress callback
          {| percent := locationPercent (index + 1) totalLocations;
             processed := index + 1; total := totalLocations;
             message := "Validated " +:+ numberToString (index + 1) +:+ "/"
                        +:+ numberToString totalLocations +:+ " locations.";
             progress_matchedTitle := Some bestTitle |};;
        resolveLocations callback adapters context bestTitle totalLocations
          (index + 1) rest' (resolved ++ found)
  end.

Definition emptyResult (st : DetectionStatus) (matched : option string) (score : float)
    (ambiguous : bool) (meta : option ExeMetadata) (warns : list string)
  : CatalogSaveDetectionResult :=
  {| status := st; matchedTitle := matched; matchScore := score;
     titleAmbiguous := ambiguous; candidates := []; metadata := meta; warnings := warns |}.

(** [detectCatalogSavePaths] from the ranking on: [ranked] is the sorted list
    of entries with their scores. *)
Definition detectFromRanking (input : CatalogSaveDetectionInput)
    (adapters : CatalogDetectionAdapters) (meta : option ExeMetadata)
    (ranked : list (ParsedCatalogEntry * float)) : D CatalogSaveDetectionResult :=
  match ranked with
  | [] => pureD (emptyResult NoMatch None 0 false meta [])
  | best :: others =>
      if (best.2 <? 0.45)%float
      then pureD (emptyResult NoMatch None best.2 false meta [])
      else
        let ambiguous :=
          match others with
          | second :: _ => (0.65 <=? second.2)%float && (best.2 - second.2 <=? 0.05)%float
          | [] => false
          end in
        let warns :=
          match others with
          | second :: _ =>
              if ambiguous
              then ["Ambiguous title match: " +:+ dquote +:+ title best.1 +:+ dquote
                    +:+ " vs " +:+ dquote +:+ title second.1 +:+ dquote +:+ "."]
              else []
          | [] => []
          end in
        let windowsLocations := windowsLocationsOf best.1 in
        if bool_decide (windowsLocations = [])
        then pureD (emptyResult NoWindowsLocations (Some (title best.1)) best.2
                      ambiguous meta warns)
        else
          steamLibraries ←
            liftD (catchDefault
                     (default (detectSteamLibraries H) (adapter_listSteamLibraries adapters)) []);
          let context :=
            {| ctx_installPath := installPath input; ctx_gameName := gameName input;
               ctx_steamLibraries := steamLibraries |} in
          let totalLocations := Z.of_nat (length windowsLocations) in
          reportProgress (onProgress input)
            {| percent := 20; processed := 0; total := totalLocations;
               message := "Matched " +:+ dquote +:+ title best.1 +:+ dquote
                          +:+ ". Resolving Windows save locations...";
               progress_matchedTitle := Some (title best.1) |};;
          resolvedCandidates ←
            resolveLocations (onProgress input) adapters context (title best.1)
              totalLocations 0 windowsLocations [];
          reportProgress (onProgress input)
            {| percent := 95; processed := totalLocations; total := totalLocations;
               message := "Ranking candidate save paths...";
               progress_matchedTitle := Some (title best.1) |};;
          let merged := mergeCandidatesByPath resolvedCandidates in
          if bool_decide (merged = [])
          then pureD (emptyResult NoValidCandidates (Some (title best.1)) best.2
                        ambiguous meta warns)
          else pureD {| status := Matched; matchedTitle := Some (title best.1);
                        matchScore := best.2; titleAmbiguous := ambiguous;
                        candidates := merged; metadata := meta; warnings := warns |}
  end.

Definition queryNamesOf (input : CatalogSaveDetectionInput) (meta : option ExeMetadata)
  : list string :=
  let installFolderName := path_basename P (path_normalize P (installPath input)) in
  let exeFileName := path_parse_name H (path_basename P (exePath input)) in
  dedupeStrings
    [default "" (meta ≫= productName);
     default "" (meta ≫= fileDescription);
     gameName input;
     installFolderName;
     exeFileName].

Definition detectCatalogSavePaths (input : CatalogSaveDetectionInput)
    (adapters : CatalogDetectionAdapters) : D CatalogSaveDetectionResult :=
  reportProgress (onProgress input)
    {| percent := 5; processed := 0; total := 1;
       message := "Loading catalog database..."; progress_matchedTitle := None |};;
  entries ← loadCatalogEntries (catalogPath input) adapters;
  match entries with
  | None => pureD (emptyResult CatalogMissing None 0 false None [])
  | Some [] => pureD (emptyResult CatalogInvalid None 0 false None [])
  | Some entries =>
      reportProgress (onProgress input)
        {| percent := 15; processed := 0; total := 1;
           message := "Matching game title using executable metadata...";
           progress_matchedTitle := None |};;
      meta ←
        liftD (catchDefault
                 (default (readExeMetadataFromFile H) (adapter_readExeMetadata adapters)
                    (exePath input)) None);
      detectFromRanking input adapters meta
        (rankEntries (queryNamesOf input meta) entries)
  end.

End Detector.

(** ** What the progress callback saw *)

(** The payload of the first progress report, as the callback receives it. *)
Definition loadingProgress : CatalogSaveDetectionProgress :=
  {| percent := 5; processed := 0; total := 1;
     message := "Loading catalog database..."; progress_matchedTitle := None |}.

(** The callback [call], which has seen [history], is invoked on the
    payloads [sent] one after the other and returns normally each time. *)
Fixpoint allOk (call : ProgressCallback) (history sent : list CatalogSaveDetectionProgress)
  : Prop :=
  match sent with
  | [] => True
  | payload :: later => call history payload = Ok tt ∧ allOk call (history ++ [payload]) later
  end.

(** From [st] to [st'] the callback was invoked a number of times and
    returned normally from each invocation. *)
Definition allReturned (call : ProgressCallback) (st st' : DetectorState) : Prop :=
  ∃ sent, delivered st' = delivered st ++ sent ∧ allOk call (delivered st) sent.

(** [returns call m]: when [m] completes normally, every invocation of the
    callback it made returned normally. *)
Definition returns {A} (call : ProgressCallback) (m : D A) : Prop :=
  ∀ st a st', m st = (Ok a, st') → allReturned call st st'.


(** * A concrete platform

    A small Windows-like platform on which the services can be run: drive
    paths with [\] as separator, an in-memory disk, code-point collation, and
    stand-ins for SHA-256, the JSON codec, the uuid generator and the clock.
    The examples and the instances of the theorems below are computed on it. *)

Module Fixture.

(** ** Paths *)

Definition segments (p : string) : list string :=
  filter (λ part, part ≠ "") (splitOn isPathSeparator p).

(** Resolves [.] and [..]; the drive, first on the stack, is never popped. *)
Definition normalizeSegments (parts : list string) : list string :=
  reverse
    (foldl (λ stack part,
              if String.eqb part "." then stack
              else if String.eqb part ".."
                   then match stack with
                        | [drive] => [drive]
                        | _ :: below => below
                        | [] => []
                        end
                   else part :: stack)
           [] parts).

Definition normalize (p : string) : string :=
  match normalizeSegments (segments p) with
  | [drive] => drive +:+ "\"
  | parts => join "\" parts
  end.

Definition isAbsolute (p : string) : bool :=
  match p with
  | String c (String colon _) => (isUpper c || isLower c) && Ascii.eqb colon ":"
  | _ => false
  end.

Definition cwd : string := "C:\app".

Definition resolve (parts : list string) : string :=
  normalize
    (foldl (λ acc part,
              if isEmpty part then acc
              else if isAbsolute part then part
              else acc +:+ "\" +:+ part)
           cwd parts).

Definition joinPaths (parts : list string) : string :=
  normalize (join "\" (filter (λ part, part ≠ "") parts)).

Definition basename (p : string) : string := default "" (last (segments p)).

Definition dirname (p : string) : string :=
  let parts := segments p in
  join "\" (take (length parts - 1) parts).

Definition relative (from to : string) : string :=
  let base := normalize from +:+ "\" in
  let target := normalize to in
  if startsWith target base
  then substring (String.length base) (String.length target - String.length base) target
  else target.

(** ** Collation by code point *)

Lemma ascii_compare_lt_trans (a b c : ascii) :
  Ascii.compare a b = Lt → Ascii.compare b c ≠ Gt → Ascii.compare a c = Lt.
Proof.
  unfold Ascii.compare. rewrite !N.compare_lt_iff, N.compare_gt_iff. lia.
Qed.

Lemma compare_not_gt_trans (a b c : string) :
  String.compare a b ≠ Gt → String.compare b c ≠ Gt → String.compare a c ≠ Gt.
Proof.
  revert b c. induction a as [| x a IH]; intros [| y b] [| z c]; cbn; try done.
  destruct (Ascii.compare x y) eqn:Hxy; [| | done];
    destruct (Ascii.compare y z) eqn:Hyz; try done.
  - apply Ascii.compare_eq_iff in Hxy as ->. rewrite Hyz. apply IH.
  - apply Ascii.compare_eq_iff in Hxy as ->. by rewrite Hyz.
  - apply Ascii.compare_eq_iff in Hyz as <-. by rewrite Hxy.
  - rewrite (ascii_compare_lt_trans x y z); [done | done | by rewrite Hyz].
Qed.

Lemma compare_antisym (a b : string) : String.compare b a = CompOpp (String.compare a b).
Proof. apply String.compare_antisym. Qed.

(** ** The disk *)

Record FixDisk := {
  fd_files : list (string * string);
  fd_dirs : list string;
  fd_locked : list string
}.

Definition lookupFile (disk : FixDisk) (p : string) : option string :=
  snd <$> find (λ entry, String.eqb entry.1 p) (fd_files disk).

Definition isDir (disk : FixDisk) (p : string) : bool := existsb (String.eqb p) (fd_dirs disk).

Definition fix_existsSync (disk : FixDisk) (p : string) : bool :=
  bool_decide (is_Some (lookupFile disk p)) || isDir disk p.

Definition fix_statIsDirectory (disk : FixDisk) (p : string) : option bool :=
  if isDir disk p then Some true
  else match lookupFile disk p with Some _ => Some false | None => None end.

Definition orMissing {A} (p : string) (found : option A) : Result A :=
  match found with
  | Some a => Ok a
  | None => Throw ("ENOENT: no such file or directory: " +:+ p)
  end.

Definition fix_hashText (text : string) : string := "sha256(" +:+ text +:+ ")".

Definition putFile (p content : string) (disk : FixDisk) : FixDisk :=
  {| fd_files := filter (λ entry, entry.1 ≠ p) (fd_files disk) ++ [(p, content)];
     fd_dirs := fd_dirs disk;
     fd_locked := fd_locked disk |}.

Definition fix_copyFile (source dest : string) (attempts : nat) (disk : FixDisk)
  : Result unit * FixDisk :=
  match lookupFile disk source with
  | Some content => (Ok tt, putFile dest content disk)
  | None => (Throw ("Copy failed: " +:+ source), disk)
  end.

Definition under (dir p : string) : bool :=
  String.eqb p dir || startsWith p (dir +:+ "\").

Definition fix_removeDirSafe (p : string) (disk : FixDisk) : Result unit * FixDisk :=
  if existsb (String.eqb p) (fd_locked disk) then (Throw "locked", disk)
  else
    (Ok tt,
     {| fd_files := filter (λ entry, under p entry.1 = false) (fd_files disk);
        fd_dirs := filter (λ dir, under p dir = false) (fd_dirs disk);
        fd_locked := fd_locked disk |}).

Definition fix_ensureDir (p : string) (disk : FixDisk) : Result unit * FixDisk :=
  (Ok tt,
   {| fd_files := fd_files disk;
      fd_dirs := if isDir disk p then fd_dirs disk else fd_dirs disk ++ [p];
      fd_locked := fd_locked disk |}).

(** ** JSON documents on the disk

    The text of a document is a name; [parse] looks the name up. *)

Definition manifestDocument (snapshotId storageFolder : string) : JSON :=
  JObject [("version", JNumber 2);
           ("snapshot_id", JString snapshotId);
           ("created_at", JString "2026-01-01T00:00:00.000Z");
           ("reason", JString "manual");
           ("locations",
            JObject [("loc-1",
                      JObject [("path", JString "C:\Saves");
                               ("type", JString "folder");
                               ("auto_detected", JBool false);
                               ("enabled", JBool true);
                               ("storage_folder", JString storageFolder)])])].

Definition catalogGames : list JSON :=
  [JObject [("title", JString "Wrapped Game");
            ("save_game_data_locations",
             JArray [JObject [("system", JString "Windows");
                              ("location", JString "<path-to-game>\Saves")]])]].

Definition parse (text : string) : option JSON :=
  if String.eqb text "manifest:inside" then Some (manifestDocument "snap-1" "Saves")
  else if String.eqb text "manifest:escape" then Some (manifestDocument "snap-1" "..\..\outside")
  else if String.eqb text "manifest:empty"
  then Some (JObject [("version", JNumber 2); ("snapshot_id", JString "snap-1");
                      ("created_at", JString "2026-01-01T00:00:00.000Z");
                      ("reason", JString "manual"); ("locations", JObject [])])
  else if String.eqb text "catalog:bare-array" then Some (JArray catalogGames)
  else if String.eqb text "catalog:wrapped"
  then Some (JObject [("source", JString "PCGamingWiki"); ("games", JArray catalogGames)])
  else None.

Definition fixDate (millis : Z) (iso : string) : JsDate :=
  {| getFullYear := 2026; getMonth := 1; getDate := 9; getHours := 20; getMinutes := 14;
     getSeconds := 18; getMilliseconds := millis; toISOString := iso |}.

Definition platform : Platform :=
  {| Disk := FixDisk;
     win32 := true;
     path_resolve := resolve;
     path_normalize := normalize;
     path_join := joinPaths;
     path_basename := basename;
     path_dirname := dirname;
     path_relative := relative;
     localeCompare := String.compare;
     hashText := fix_hashText;
     JSON_parse := parse;
     JSON_stringify := λ _, "manifest:written";
     uuid := λ n, "uuid-" +:+ pretty n;
     dateNow := λ n, fixDate (Z.of_nat n)
                       ("2026-02-09T20:14:18." +:+ pad3 (Z.of_nat n) +:+ "Z");
     dateParse := λ text, if isEmpty (trim text) then None else Some (fixDate 0 text);
     existsSync := fix_existsSync;
     statIsDirectory := fix_statIsDirectory;
     statSize := λ disk p,
       orMissing p ((λ content, Z.of_nat (String.length content)) <$> lookupFile disk p);
     readFile := λ disk p, orMissing p (lookupFile disk p);
     hashFile := λ disk p, orMissing p (fix_hashText <$> lookupFile disk p);
     walkFiles := λ disk p,
       Ok (filter (λ q, startsWith q (p +:+ "\") = true) (map fst (fd_files disk)));
     ensureDir := fix_ensureDir;
     copyFileWithRetries := fix_copyFile;
     writeFile := λ p content disk, (Ok tt, putFile p content disk);
     removeDirSafe := fix_removeDirSafe;
     persistDb := λ _ disk, (Ok tt, disk);
     toSafeGameFolderName := λ name, name;
     getSnapshotRoot := λ storageRoot gameFolder name,
       joinPaths [storageRoot; gameFolder; "Snapshots"; name];
     localeCompare_antisym := compare_antisym;
     localeCompare_trans := compare_not_gt_trans |}.

(** The detector's host over a given disk. The default adapters find
    nothing; a template is expanded by substituting the install path for
    [<path-to-game>], and an expanded path is a candidate when it exists. *)
Definition host (files : FixDisk) : DetectorHost :=
  {| statMtimeMs := λ p, if fix_existsSync files p then Some 1%float else None;
     path_parse_name := λ name,
       match splitOn (λ c, Ascii.eqb c ".") name with
       | stem :: _ => stem
       | [] => name
       end;
     readExeMetadataFromFile := λ _, Ok None;
     readRegistryValuesFromKey := λ _, Ok [];
     detectSteamLibraries := Ok [];
     expandLocationTemplate := λ rawLocation context,
       [normalize (replaceAll "<path-to-game>" (ctx_installPath context) rawLocation)];
     scoreCandidatePath := λ candidatePath source rawLocation,
       if fix_existsSync files candidatePath
       then Some {| cand_path := candidatePath; cand_score := 0.55;
                    cand_source := source; cand_rawLocation := rawLocation;
                    cand_reasons := ["path exists"] |}
       else None |}.

End Fixture.

(** ** Sample worlds *)

Module Sample.

Import Fixture.

Definition settings (retention : Z) : Settings :=
  {| backupFrequencyMinutes := 5; retentionCount := retention;
     storageRoot := "C:\Backups"; compressionEnabled := false; dataRoot := "C:\Data" |}.

Definition gameOne : StoredGame :=
  {| game_id := "game-1"; game_name := "Game One"; game_install_path := "C:\Games\One";
     game_exe_path := "C:\Games\One\one.exe"; game_created_at := "2026-01-01T00:00:00.000Z";
     game_status := StatusProtected; game_folder_name := "GameOne" |}.

Definition savesFolder : SaveLocation :=
  {| loc_id := "loc-1"; loc_game_id := "game-1"; loc_path := "C:\Saves";
     loc_type := TypeFolder; loc_auto_detected := false; loc_enabled := true |}.

Definition snapshotRow (id gameId createdAt : string) : Snapshot :=
  {| snap_id := id; snap_game_id := gameId; snap_created_at := createdAt;
     snap_size_bytes := 1; snap_checksum := "snapshot-checksum";
     snap_storage_path := "C:\Backups\GameOne\Snapshots\" +:+ id;
     snap_reason := ReasonManual |}.

Definition fileRow (id snapshotId locationId relativePath : string) : SnapshotFile :=
  {| file_id := id; file_snapshot_id := snapshotId; file_location_id := locationId;
     file_relative_path := relativePath; file_size_bytes := 1;
     file_checksum := "file-checksum" |}.

Definition world (s : AppState) (busy : gset string) (files : FixDisk) : World platform :=
  Build_World platform s busy files [] 0 0.

(** A game with one folder location of two save files and two earlier
    snapshots, next to a snapshot of another game. *)
Definition library : AppState :=
  {| games := [gameOne];
     saveLocations := [savesFolder];
     snapshots := [snapshotRow "snap-1" "game-1" "2026-01-01T00:00:00.000Z";
                   snapshotRow "snap-9" "game-2" "2026-01-05T00:00:00.000Z";
                   snapshotRow "snap-2" "game-1" "2026-01-02T00:00:00.000Z"];
     snapshotFiles := [fileRow "file-1" "snap-1" "loc-1" "save.sav"];
     eventLogs := [] |}.

Definition savesDisk (manifest : string) (locked : list string) : FixDisk :=
  {| fd_files := [("C:\Saves\a.sav", "abc"); ("C:\Saves\sub\b.sav", "xyz");
                  ("C:\Backups\GameOne\Snapshots\snap-1\snapshot.manifest.json", manifest);
                  ("C:\Backups\GameOne\Snapshots\snap-1\Saves\save.sav", "old")];
     fd_dirs := ["C:\Saves"; "C:\Saves\sub"; "C:\Backups";
                 "C:\Backups\GameOne\Snapshots\snap-1";
                 "C:\Backups\GameOne\Snapshots\snap-2"];
     fd_locked := locked |}.

(** The same game once its save location has been removed. *)
Definition libraryWithoutLocations : AppState :=
  {| games := games library; saveLocations := []; snapshots := snapshots library;
     snapshotFiles := snapshotFiles library; eventLogs := [] |}.

(** A game installed with its saves, and the two forms of catalog file. *)
Definition installDisk : FixDisk :=
  {| fd_files := [("C:\Games\One\Saves\slot.sav", "save-data");
                  ("C:\catalog-array.json", "catalog:bare-array");
                  ("C:\catalog-wrapped.json", "catalog:wrapped")];
     fd_dirs := ["C:\Games\One"; "C:\Games\One\Saves"];
     fd_locked := [] |}.

Definition noAdapters : CatalogDetectionAdapters :=
  {| adapter_readExeMetadata := None; adapter_readRegistryValues := None;
     adapter_listSteamLibraries := None; adapter_loadCatalogEntries := None |}.

Definition detectionInput (catalog name : string) (callback : option ProgressCallback)
  : CatalogSaveDetectionInput :=
  {| catalogPath := catalog; gameName := name; exePath := "C:\Games\One\one.exe";
     installPath := "C:\Games\One"; onProgress := callback |}.

Definition freshDetector : DetectorState :=
  {| catalogCache := ∅; delivered := [] |}.

(** A catalog, injected through the adapter, whose only title shares 9 of
    the 20 distinct words it has together with the name of the game. *)
Definition nineOfTwenty : CatalogDetectionAdapters :=
  {| adapter_readExeMetadata := None; adapter_readRegistryValues := None;
     adapter_listSteamLibraries := None;
     adapter_loadCatalogEntries := Some (λ _,
       Ok (Some [{| title := "a1 a2 a3 a4 a5 a6 a7 a8 a9 c1 c2 c3 c4 c5 c6";
                    saveLocations_of :=
                      [{| system := "Windows"; location := "<path-to-game>\Saves" |}] |}])) |}.

Definition nineOfTwentyName : string := "a1 a2 a3 a4 a5 a6 a7 a8 a9 b1 b2 b3 b4 b5".

(** The game has lost its save locations: the safety backup returns [null]
    and the restore of [snap-1] is blocked. *)
Definition blockedStart : World platform :=
  world libraryWithoutLocations ∅ (savesDisk "manifest:empty" []).

Definition blockedAfterManifest : World platform :=
  (readSnapshotManifest platform "C:\Backups\GameOne\Snapshots\snap-1" blockedStart).2.

Definition blockedAfterBackup : World platform :=
  (backupGame platform 5 (settings 2) "game-1" ReasonPreRestore true blockedAfterManifest).2.

(** A third backup of [game-1] under a retention of two. *)
Definition retentionStart : World platform :=
  world library ∅ (savesDisk "manifest:inside" []).

Definition retentionSnapshot : Snapshot :=
  {| snap_id := "uuid-0"; snap_game_id := "game-1";
     snap_created_at := "2026-02-09T20:14:18.000Z"; snap_size_bytes := 6;
     snap_checksum := "sha256(loc-1:a.sav:sha256(abc):3|loc-1:sub\b.sav:sha256(xyz):3)";
     snap_storage_path := "C:\Backups\GameOne\Snapshots\2026-02-09_20-14-18-000";
     snap_reason := ReasonManual |}.

Definition retentionEnd : World platform :=
  (backupGame platform 5 (settings 2) "game-1" ReasonManual false retentionStart).2.

(** The manifest of [snap-1] maps its location to [..\..\outside]. *)
Definition escapeStart : World platform :=
  world library ∅ (savesDisk "manifest:escape" []).

Definition escapeAfterManifest : World platform :=
  (readSnapshotManifest platform "C:\Backups\GameOne\Snapshots\snap-1" escapeStart).2.

Definition escapeManifest : SnapshotManifestPayload :=
  {| m_snapshot_id := "snap-1"; m_created_at := "2026-01-01T00:00:00.000Z";
     m_reason := ReasonManual;
     m_locations :=
       {[ "loc-1" := {| ml_path := "C:\Saves"; ml_type := TypeFolder;
                        ml_auto_detected := false; ml_enabled := true;
                        ml_storage_folder := "..\..\outside" |} ]} |}.

(** The same snapshot once the save location [loc-1] of its file has been
    disabled. The game has a second location, which is enabled, so that the
    safety backup of a restore succeeds. *)
Definition disabledSavesFolder : SaveLocation :=
  {| loc_id := "loc-1"; loc_game_id := "game-1"; loc_path := "C:\Saves";
     loc_type := TypeFolder; loc_auto_detected := false; loc_enabled := false |}.

Definition subFolder : SaveLocation :=
  {| loc_id := "loc-2"; loc_game_id := "game-1"; loc_path := "C:\Saves\sub";
     loc_type := TypeFolder; loc_auto_detected := false; loc_enabled := true |}.

Definition libraryWithDisabledLocation : AppState :=
  {| games := games library; saveLocations := [disabledSavesFolder; subFolder];
     snapshots := snapshots library; snapshotFiles := snapshotFiles library;
     eventLogs := [] |}.

Definition escapeDisabledStart : World platform :=
  world libraryWithDisabledLocation ∅ (savesDisk "manifest:escape" []).

Definition escapeDisabledAfterManifest : World platform :=
  (readSnapshotManifest platform "C:\Backups\GameOne\Snapshots\snap-1" escapeDisabledStart).2.

(** The safety backups that a restore of [snap-1] takes first: of both
    save files when [loc-1] is enabled, of the file of [loc-2] when it is
    not. *)
Definition escapeSafety : Snapshot :=
  {| snap_id := "uuid-0"; snap_game_id := "game-1";
     snap_created_at := "2026-02-09T20:14:18.000Z"; snap_size_bytes := 6;
     snap_checksum := "sha256(loc-1:a.sav:sha256(abc):3|loc-1:sub\b.sav:sha256(xyz):3)";
     snap_storage_path := "C:\Backups\GameOne\Snapshots\2026-02-09_20-14-18-000";
     snap_reason := ReasonPreRestore |}.

Definition escapeAfterBackup : World platform :=
  (backupGame platform 5 (settings 2) "game-1" ReasonPreRestore true escapeAfterManifest).2.

Definition escapeDisabledSafety : Snapshot :=
  {| snap_id := "uuid-0"; snap_game_id := "game-1";
     snap_created_at := "2026-02-09T20:14:18.000Z"; snap_size_bytes := 3;
     snap_checksum := "sha256(loc-2:b.sav:sha256(xyz):3)";
     snap_storage_path := "C:\Backups\GameOne\Snapshots\2026-02-09_20-14-18-000";
     snap_reason := ReasonPreRestore |}.

Definition escapeDisabledAfterBackup : World platform :=
  (backupGame platform 5 (settings 2) "game-1" ReasonPreRestore true
     escapeDisabledAfterManifest).2.

Definition thresholdInput : CatalogSaveDetectionInput :=
  detectionInput "C:\none.json" nineOfTwentyName None.

Definition thresholdResult : CatalogSaveDetectionResult :=
  {| status := Matched;
     matchedTitle := Some "a1 a2 a3 a4 a5 a6 a7 a8 a9 c1 c2 c3 c4 c5 c6";
     matchScore := 0.45;
     titleAmbiguous := false;
     candidates := [{| cand_path := "C:\Games\One\Saves"; cand_score := 0.55;
                       cand_source := SourceFilesystem;
                       cand_rawLocation := "<path-to-game>\Saves";
                       cand_reasons := ["path exists"] |}];
     metadata := None;
     warnings := [] |}.

Definition throwingInput : CatalogSaveDetectionInput :=
  detectionInput "C:\catalog-wrapped.json" "Wrapped Game" (Some (λ _ _, Throw "boom")).

End Sample.

(** * Properties of the backup service *)

Section BackupFacts.

Variable P : Platform.

Implicit Types (w : World P) (s : AppState).

(** ** Inversion of the monad's combinators *)

Lemma bind_ok_inv {A B} (m : M P A) (k : A → M P B) w b w' :
  bind P m k w = (Ok b, w') →
  ∃ a w1, m w = (Ok a, w1) ∧ k a w1 = (Ok b, w').
Proof.
  unfold bind. destruct (m w) as [[a | e |] w1]; intros H; try discriminate.
  by exists a, w1.
Qed.

Lemma bind_inv {A B} (m : M P A) (k : A → M P B) w r w' :
  bind P m k w = (r, w') →
  (∃ a w1, m w = (Ok a, w1) ∧ k a w1 = (r, w'))
  ∨ (∃ e, m w = (Throw e, w') ∧ r = Throw e)
  ∨ (m w = (Diverge, w') ∧ r = Diverge).
Proof.
  unfold bind. destruct (m w) as [[a | e |] w1]; intros H.
  - left. by exists a, w1.
  - right; left. exists e. by inversion H.
  - right; right. by inversion H.
Qed.

Lemma bind_assoc {A B C} (m : M P A) (k : A → M P B) (k' : B → M P C) w :
  bind P (bind P m k) k' w = bind P m (λ a, bind P (k a) k') w.
Proof. unfold bind. by destruct (m w) as [[a | e |] w1]. Qed.

Lemma bind_ext {A B} (m : M P A) (k1 k2 : A → M P B) w :
  (∀ a w1, k1 a w1 = k2 a w1) → bind P m k1 w = bind P m k2 w.
Proof. intros Hk. unfold bind. destruct (m w) as [[a | e |] w1]; [apply Hk | done..]. Qed.

Lemma find_snapshot_none s snapshotId :
  snapshotId ∉ snap_id <$> snapshots s → findSnapshot s snapshotId = None.
Proof.
  unfold findSnapshot. induction (snapshots s) as [| x l IH]; [done |].
  cbn. intros Hnot. apply not_elem_of_cons in Hnot as [Hne Hnot].
  destruct (String.eqb_spec (snap_id x) snapshotId) as [Heq | _]; [by subst | auto].
Qed.

Lemma find_snapshot_some s snapshotId snapshot :
  findSnapshot s snapshotId = Some snapshot →
  snapshot ∈ snapshots s ∧ snap_id snapshot = snapshotId.
Proof.
  unfold findSnapshot. induction (snapshots s) as [| x l IH]; [done |].
  cbn. destruct (String.eqb_spec (snap_id x) snapshotId) as [Heq | _].
  - intros [= <-]. split; [left | done].
  - intros H. destruct (IH H). split; [by right | done].
Qed.

(** ** Stable sorting *)

Section Sorting.

Context {A : Type} (after : A → A → bool).

Lemma sortInsert_Permutation x l : Js.sortInsert after x l ≡ₚ x :: l.
Proof.
  induction l as [| y l IH]; cbn; [done |].
  destruct (after x y); [| done].
  rewrite IH. apply Permutation_swap.
Qed.

Lemma sort_Permutation l : Js.sort after l ≡ₚ l.
Proof.
  induction l as [| x l IH]; cbn; [done |].
  fold (Js.sort after l). by rewrite sortInsert_Permutation, IH.
Qed.

(** A comparator that is consistent: never positive both ways round, and
    "not after" is transitive. *)
Hypothesis after_asym : ∀ x y, after x y = true → after y x = false.
Hypothesis after_trans : ∀ x y z, after x y = false → after y z = false → after x z = false.

Lemma sortInsert_sorted x l :
  StronglySorted (λ a b, after a b = false) l →
  StronglySorted (λ a b, after a b = false) (Js.sortInsert after x l).
Proof.
  induction 1 as [| y l Hsorted IH Hall]; cbn; [by repeat constructor |].
  destruct (after x y) eqn:Hxy.
  - constructor; [done |].
    rewrite sortInsert_Permutation. constructor; [by apply after_asym | done].
  - constructor; [by constructor |].
    constructor; [done |].
    eapply Forall_impl; [exact Hall |]. cbn. eauto.
Qed.

Lemma sort_sorted l : StronglySorted (λ a b, after a b = false) (Js.sort after l).
Proof.
  induction l as [| x l IH]; cbn; [constructor |]. by apply sortInsert_sorted.
Qed.

(** Whatever is cut off behind position [n] of the sorted list does not have
    to precede anything that is kept. *)
Lemma sort_take_drop n l k r :
  k ∈ take n (Js.sort after l) → r ∈ drop n (Js.sort after l) → after k r = false.
Proof.
  intros Hk Hr. pose proof (sort_sorted l) as Hs.
  rewrite <- (take_drop n (Js.sort after l)) in Hs.
  revert Hs Hk. generalize (take n (Js.sort after l)) as front.
  induction front as [| x front IH]; cbn; intros Hs Hk; [by apply elem_of_nil in Hk |].
  apply StronglySorted_inv in Hs as [Hs Hall].
  apply elem_of_cons in Hk as [-> | Hk]; [| by apply IH].
  rewrite Forall_forall in Hall. apply Hall, elem_of_app. by right.
Qed.

End Sorting.

(** ** What a computation leaves alone *)

Section Always.

Context (R : relation (World P)) `{!PreOrder R}.

Lemma always_ret {A} (a : A) : always R (ret P a).
Proof. by intros w r w' [= _ <-]. Qed.

Lemma always_throw {A} e : always R (throw P e : M P A).
Proof. by intros w r w' [= _ <-]. Qed.

Lemma always_lift {A} (x : Result A) : always R (lift P x).
Proof. by intros w r w' [= _ <-]. Qed.

Lemma always_bind {A B} (m : M P A) (k : A → M P B) :
  always R m → (∀ a, always R (k a)) → always R (bind P m k).
Proof.
  intros Hm Hk w r w' H.
  apply bind_inv in H as [(a & w1 & H1 & H2) | [(e & H1 & _) | [H1 _]]].
  - trans w1; [eapply Hm | eapply Hk]; eauto.
  - eapply Hm; eauto.
  - eapply Hm; eauto.
Qed.

Lemma always_tryCatch {A} (body : M P A) handler :
  always R body → (∀ e, always R (handler e)) → always R (tryCatch P body handler).
Proof.
  intros Hb Hh w r w'. unfold tryCatch.
  destruct (body w) as [[a | e |] w1] eqn:Hbody; intros H.
  - inversion H; subst. eauto.
  - trans w1; [eapply Hb | eapply Hh]; eauto.
  - inversion H; subst. eauto.
Qed.

Lemma always_forEach {A B} (step : B → A → M P B) items :
  (∀ b a, always R (step b a)) → ∀ b, always R (forEach P step items b).
Proof.
  intros Hstep. induction items as [| a items IH]; intros b; cbn.
  - apply always_ret.
  - apply always_bind; [apply Hstep | intros b'; apply IH].
Qed.

End Always.

Instance keeps_preorder {X} (f : World P → X) : PreOrder (λ w w', f w' = f w).
Proof. split; [done | intros x y z; congruence]. Qed.

Lemma keeps_ret {A X} (f : World P → X) (a : A) : keeps f (ret P a).
Proof. apply always_ret, _. Qed.

Lemma keeps_throw {A X} (f : World P → X) e : keeps f (throw P e : M P A).
Proof. apply always_throw, _. Qed.

Lemma keeps_lift {A X} (f : World P → X) (x : Result A) : keeps f (lift P x).
Proof. apply always_lift, _. Qed.

Lemma keeps_bind {A B X} (f : World P → X) (m : M P A) (k : A → M P B) :
  keeps f m → (∀ a, keeps f (k a)) → keeps f (bind P m k).
Proof. apply always_bind, _. Qed.

Lemma keeps_forEach {A B X} (f : World P → X) (step : B → A → M P B) items :
  (∀ b a, keeps f (step b a)) → ∀ b, keeps f (forEach P step items b).
Proof. apply always_forEach, _. Qed.

Lemma keeps_through {A X Y} (f : World P → X) (g : X → Y) (m : M P A) :
  keeps f m → keeps (λ w, g (f w)) m.
Proof. intros Hm w r w' H. by rewrite (Hm _ _ _ H). Qed.

(** File-system accesses, uuids and clock readings leave the index alone. *)
Lemma keeps_db_fs_update e op : keeps (db P) (fs_update P e op).
Proof.
  intros w r w'. unfold fs_update. destruct (op (disk P w)). by intros [= _ <-].
Qed.

Lemma keeps_db_existsSync p : keeps (db P) (fs_existsSync P p).
Proof. by intros w r w' [= _ <-]. Qed.

Lemma keeps_db_statIsDirectory p : keeps (db P) (fs_statIsDirectory P p).
Proof. by intros w r w' [= _ <-]. Qed.

Lemma keeps_db_statSize p : keeps (db P) (fs_statSize P p).
Proof. by intros w r w' [= _ <-]. Qed.

Lemma keeps_db_readFile p : keeps (db P) (fs_readFile P p).
Proof. by intros w r w' [= _ <-]. Qed.

Lemma keeps_db_hashFile p : keeps (db P) (fs_hashFile P p).
Proof. by intros w r w' [= _ <-]. Qed.

Lemma keeps_db_walkFiles p : keeps (db P) (fs_walkFiles P p).
Proof. by intros w r w' [= _ <-]. Qed.

Lemma keeps_db_persistDb : keeps (db P) (fs_persistDb P).
Proof. intros w r w'. unfold fs_persistDb. apply keeps_db_fs_update. Qed.

Lemma keeps_db_newUuid : keeps (db P) (newUuid P).
Proof. by intros w r w' [= _ <-]. Qed.

Lemma keeps_db_newDate : keeps (db P) (newDate P).
Proof. by intros w r w' [= _ <-]. Qed.

(** Status updates and event-log entries leave the snapshot rows alone. *)
Lemma keeps_snapshots_updateGameStatus gameId status :
  keeps (λ w, snapshots (db P w)) (modifyDb P (updateGameStatus gameId status)).
Proof. by intros w r w' [= _ <-]. Qed.

Lemma keeps_snapshots_logEvent gameId type message :
  keeps (λ w, snapshots (db P w)) (modifyDb P (logEvent gameId type message)).
Proof. by intros w r w' [= _ <-]. Qed.

Create HintDb keeps discriminated.

Hint Resolve keeps_ret keeps_throw keeps_lift keeps_db_fs_update keeps_db_existsSync
  keeps_db_statIsDirectory keeps_db_statSize keeps_db_readFile keeps_db_hashFile
  keeps_db_walkFiles keeps_db_persistDb keeps_db_newUuid keeps_db_newDate
  keeps_snapshots_updateGameStatus keeps_snapshots_logEvent : keeps.

(** Splits a goal [keeps f m] along the binds of [m]; primitive accesses are
    closed by the lemmas above, through [keeps_through] when [f] reads the
    index only. *)
Ltac keeps_step :=
  lazymatch goal with
  | |- keeps _ (bind _ _ _) => apply keeps_bind; [| intros ?]
  | |- keeps _ (match ?x with _ => _ end) => destruct x
  | |- keeps (λ w, ?g (db _ w)) _ =>
      first [ solve [eauto with keeps]
            | solve [apply (keeps_through (db P) g); eauto with keeps] ]
  | |- keeps _ _ => solve [eauto with keeps]
  end.

Ltac keeps_auto := repeat keeps_step.

Lemma keeps_snapshots_isDirectoryPath p :
  keeps (λ w, snapshots (db P w)) (isDirectoryPath P p).
Proof. unfold isDirectoryPath. keeps_auto. Qed.

Lemma keeps_snapshots_resolveUniqueLoop fuel storageRoot gameFolder base candidate suffix :
  keeps (λ w, snapshots (db P w))
    (resolveUniqueSnapshotFolderNameLoop P fuel storageRoot gameFolder base candidate suffix).
Proof.
  revert candidate suffix. induction fuel as [| fuel IH]; intros candidate suffix; cbn.
  - by intros w r w' [= _ <-].
  - apply keeps_bind; [apply keeps_snapshots_isDirectoryPath |].
    intros [|]; [apply IH | apply keeps_ret].
Qed.

Lemma keeps_snapshots_resolveUnique fuel storageRoot gameFolder createdAt :
  keeps (λ w, snapshots (db P w))
    (resolveUniqueSnapshotFolderName P fuel storageRoot gameFolder createdAt).
Proof.
  unfold resolveUniqueSnapshotFolderName, formatSnapshotTimestamp.
  apply keeps_bind; [| intros; apply keeps_snapshots_resolveUniqueLoop].
  keeps_auto.
Qed.

Lemma keeps_snapshots_backupFile snapshotRoot snapshotId location folders tally filePath :
  keeps (λ w, snapshots (db P w))
    (backupFile P snapshotRoot snapshotId location folders tally filePath).
Proof. unfold backupFile, fs_copyFileWithRetries. keeps_auto. Qed.

Lemma keeps_snapshots_backupLocation gameId snapshotRoot snapshotId folders tally location :
  keeps (λ w, snapshots (db P w))
    (backupLocation P gameId snapshotRoot snapshotId folders tally location).
Proof.
  unfold backupLocation, listFilesForLocation.
  apply keeps_bind; [keeps_auto |]. intros present.
  destruct (negb present); [keeps_auto |].
  apply keeps_bind; [keeps_auto |]. intros files.
  apply keeps_forEach. intros; apply keeps_snapshots_backupFile.
Qed.

Lemma keeps_snapshots_writeSnapshotManifest snapshotRoot snapshot locations folders :
  keeps (λ w, snapshots (db P w))
    (writeSnapshotManifest P snapshotRoot snapshot locations folders).
Proof. unfold writeSnapshotManifest, fs_writeFile. keeps_auto. Qed.

(** ** Per-game mutual exclusion *)

(** C7. A backup requested for a game that already has one in flight returns
    [null] at once: no error, and the world (index, disk, issued file-system
    accesses, in-flight set) is exactly what it was. *)
Theorem backupGame_in_flight_returns_null fuel settings gameId reason skipRetention w :
  gameId ∈ inFlight P w →
  backupGame P fuel settings gameId reason skipRetention w = (Ok None, w).
Proof.
  intros Hbusy. unfold backupGame. by rewrite bool_decide_eq_true_2.
Qed.

(** ** Deleting a snapshot *)

(** C10. Deleting a snapshot id that the index does not hold returns normally
    and changes nothing, whereas verifying or restoring the same id throws
    "Snapshot not found". *)
Theorem unknown_snapshot_delete_is_noop fuel settings snapshotId log w :
  snapshotId ∉ snap_id <$> snapshots (db P w) →
  deleteSnapshot P snapshotId log w = (Ok tt, w)
  ∧ verifySnapshot P snapshotId w = (Throw "Snapshot not found", w)
  ∧ restoreSnapshot P fuel settings snapshotId w = (Throw "Snapshot not found", w).
Proof.
  intros Habsent. apply find_snapshot_none in Habsent.
  unfold deleteSnapshot, verifySnapshot, restoreSnapshot. by rewrite Habsent.
Qed.

(** C6. When removing the directory of a snapshot fails, [deleteSnapshot]
    throws that very error and the index is untouched: the snapshot row and
    its file rows are still there. *)
Theorem deleteSnapshot_failure_keeps_index snapshotId log w snapshot e d :
  findSnapshot (db P w) snapshotId = Some snapshot →
  removeDirSafe P (snap_storage_path snapshot) (disk P w) = (Throw e, d) →
  ∃ w', deleteSnapshot P snapshotId log w = (Throw e, w')
        ∧ db P w' = db P w
        ∧ snapshot ∈ snapshots (db P w')
        ∧ filesOfSnapshot (db P w') snapshotId = filesOfSnapshot (db P w) snapshotId.
Proof.
  intros Hfind Hrm.
  exists (setDisk P d (logged P (EvRemoveDir (snap_storage_path snapshot)) w)).
  split.
  - unfold deleteSnapshot. rewrite Hfind.
    unfold bind at 1. unfold fs_removeDirSafe, fs_update. cbn. by rewrite Hrm.
  - cbn. by destruct (find_snapshot_some _ _ _ Hfind).
Qed.

(** ** The aggregate checksum *)

Lemma localeCompare_refl (text : string) : localeCompare P text text = Eq.
Proof.
  pose proof (localeCompare_antisym P text text) as Hsym.
  by destruct (localeCompare P text text).
Qed.

(** C1. The checksum of a snapshot depends on the order of its rows: the
    comparator of [computeSnapshotChecksum] looks at [relative_path] alone,
    and the sort is stable, so two rows with the same relative path (here
    [a], and [b] which differs from it in location and checksum) are hashed
    in the order in which they were given. *)
Theorem checksum_follows_row_order (a : SnapshotFile) (otherLocation otherChecksum : string) :
  let b := {| file_id := file_id a; file_snapshot_id := file_snapshot_id a;
              file_location_id := otherLocation;
              file_relative_path := file_relative_path a;
              file_size_bytes := file_size_bytes a; file_checksum := otherChecksum |} in
  computeSnapshotChecksum P [a; b]
  = hashText P (snapshotFileLine a +:+ "|" +:+ snapshotFileLine b)
  ∧ computeSnapshotChecksum P [b; a]
    = hashText P (snapshotFileLine b +:+ "|" +:+ snapshotFileLine a).
Proof.
  intros b. unfold computeSnapshotChecksum. cbn.
  rewrite !localeCompare_refl. by rewrite bool_decide_eq_false_2.
Qed.

(** ** Retention *)

Lemma filter_all {A} (Q : A → Prop) `{!∀ x, Decision (Q x)} (l : list A) :
  (∀ x, x ∈ l → Q x) → filter Q l = l.
Proof.
  induction l as [| x l IH]; intros Hl; [done |].
  rewrite filter_cons_True by (apply Hl; left). f_equal. apply IH. intros; apply Hl. by right.
Qed.

Lemma filter_none {A} (Q : A → Prop) `{!∀ x, Decision (Q x)} (l : list A) :
  (∀ x, x ∈ l → ¬ Q x) → filter Q l = [].
Proof.
  induction l as [| x l IH]; intros Hl; [done |].
  rewrite filter_cons_False by (apply Hl; left). apply IH. intros; apply Hl. by right.
Qed.

Lemma deleteSnapshot_ok snapshotId w w' :
  deleteSnapshot P snapshotId false w = (Ok tt, w') →
  snapshots (db P w') = filter (λ item, snap_id item ≠ snapshotId) (snapshots (db P w)).
Proof.
  unfold deleteSnapshot. destruct (findSnapshot (db P w) snapshotId) as [snapshot |] eqn:Hfind.
  - intros H.
    apply bind_ok_inv in H as (u1 & w1 & H1 & H).
    apply bind_ok_inv in H as (u2 & w2 & H2 & H).
    apply bind_ok_inv in H as (u3 & w3 & H3 & H).
    apply keeps_db_persistDb in H3. apply keeps_db_fs_update in H1.
    unfold ret, modifyDb in *. simplify_eq. rewrite H3. cbn. by rewrite H1.
  - intros [= <-]. symmetry. apply filter_all. intros x Hx Heq.
    unfold findSnapshot in Hfind.
    induction (snapshots (db P w)) as [| y l IH]; [by apply elem_of_nil in Hx |].
    cbn in Hfind. destruct (String.eqb_spec (snap_id y) snapshotId) as [| Hne]; [done |].
    apply elem_of_cons in Hx as [-> | Hx]; [done | auto].
Qed.

Lemma deleteSnapshots_ok toRemove w w' :
  deleteSnapshots P toRemove w = (Ok tt, w') →
  snapshots (db P w')
  = filter (λ item, snap_id item ∉ snap_id <$> toRemove) (snapshots (db P w)).
Proof.
  revert w. induction toRemove as [| x rest IH]; intros w; cbn.
  - intros [= <-]. symmetry. apply filter_all. intros ? _. apply not_elem_of_nil.
  - intros H. apply bind_ok_inv in H as ([] & w1 & H1 & H).
    rewrite (IH _ H), (deleteSnapshot_ok _ _ _ H1), list_filter_filter.
    apply list_filter_iff. intros y. rewrite not_elem_of_cons. tauto.
Qed.

(** The list reasoning behind retention: deleting by id everything behind
    position [n] of the ranking leaves, of the ranked rows, the first [n]. *)
Lemma retention_keeps_front (l ranked : list Snapshot) (gameId : string) (n : nat) :
  NoDup (snap_id <$> l) →
  ranked ≡ₚ snapshotsOfGame l gameId →
  snapshotsOfGame (filter (λ item, snap_id item ∉ snap_id <$> drop n ranked) l) gameId
  ≡ₚ take n ranked.
Proof.
  unfold snapshotsOfGame. intros Hnodup Hranked.
  assert (NoDup (snap_id <$> ranked)) as Hids.
  { rewrite Hranked. eapply sublist_NoDup; [exact Hnodup |].
    apply fmap_sublist, sublist_filter. }
  rewrite list_filter_filter.
  rewrite (list_filter_iff _
             (λ a, (snap_id a ∉ snap_id <$> drop n ranked) ∧ snap_game_id a = gameId))
    by (intros; tauto).
  rewrite <- list_filter_filter, <- Hranked.
  set (Q := λ x, snap_id x ∉ snap_id <$> drop n ranked).
  assert (filter Q ranked = filter Q (take n ranked ++ drop n ranked)) as ->
    by (by rewrite take_drop).
  rewrite filter_app.
  rewrite <- (take_drop n ranked), fmap_app in Hids.
  apply NoDup_app in Hids as (_ & Hdisjoint & _).
  rewrite filter_all, filter_none, app_nil_r; [done | |].
  - intros x Hx Hnot. apply Hnot. by apply list_elem_of_fmap_2.
  - intros x Hx. apply Hdisjoint. by apply list_elem_of_fmap_2.
Qed.

Lemma applyRetentionPolicy_ok settings gameId w w' :
  applyRetentionPolicy P settings gameId w = (Ok tt, w') →
  snapshots (db P w')
  = filter (λ item, snap_id item ∉
              snap_id <$> drop (Z.to_nat (Z.max 1 (retentionCount settings)))
                            (snapshotsByRecency P (snapshots (db P w)) gameId))
           (snapshots (db P w)).
Proof. unfold applyRetentionPolicy. apply deleteSnapshots_ok. Qed.

(** ** The successful run of a backup *)

Lemma tryFinally_ok_inv {A} (body : M P A) cleanup w a w' :
  tryFinally P body cleanup w = (Ok a, w') →
  ∃ w1, body w = (Ok a, w1) ∧ cleanup w1 = (Ok tt, w').
Proof.
  unfold tryFinally. destruct (body w) as [[b | e |] w1]; [| | done].
  - destruct (cleanup w1) as [[[] | |] w2] eqn:Hc; intros [= <- <-]. by exists w1.
  - by destruct (cleanup w1) as [[[] | |] w2].
Qed.

Lemma tryCatch_ok_inv {A} (body : M P A) handler w a w' :
  tryCatch P body handler w = (Ok a, w') →
  body w = (Ok a, w') ∨ ∃ e w1, body w = (Throw e, w1) ∧ handler e w1 = (Ok a, w').
Proof.
  unfold tryCatch. destruct (body w) as [[b | e |] w1]; intros H.
  - by left.
  - right. by exists e, w1.
  - done.
Qed.

Lemma backupRollback_not_ok gameId snapshotRoot error w a w' :
  backupRollback P gameId snapshotRoot error w ≠ (Ok a, w').
Proof.
  unfold backupRollback. intros H.
  apply bind_ok_inv in H as (u1 & w1 & _ & H).
  apply bind_ok_inv in H as (u2 & w2 & _ & H).
  apply bind_ok_inv in H as (u3 & w3 & _ & H).
  discriminate.
Qed.

(** A backup that returns a snapshot went through the whole [try] block: the
    row was pushed behind the rows the index held, then retention ran (unless
    skipped), and nothing after that touched the snapshot rows. *)
Lemma backupGame_success fuel settings gameId reason skipRetention w snapshot w' :
  backupGame P fuel settings gameId reason skipRetention w = (Ok (Some snapshot), w') →
  ∃ w1 w2,
    snapshots (db P w1) = snapshots (db P w) ++ [snapshot]
    ∧ (if skipRetention then ret P tt else applyRetentionPolicy P settings gameId) w1
      = (Ok tt, w2)
    ∧ snapshots (db P w') = snapshots (db P w2)
    ∧ snap_game_id snapshot = gameId.
Proof.
  unfold backupGame. case_bool_decide as Hbusy; [done |].
  set (w0 := setInFlight P _ w).
  destruct (getStoredGameById (db P w0) gameId) as [game |]; [| done].
  intros H.
  apply bind_ok_inv in H as (snapshotId & wa & Ha & H).
  apply bind_ok_inv in H as (now & wb & Hb & H).
  apply bind_ok_inv in H as (folder & wc & Hc & H).
  apply tryFinally_ok_inv in H as (wd & H & Hcleanup).
  apply tryCatch_ok_inv in H as [H | (e & we & _ & H)];
    [| by apply backupRollback_not_ok in H].
  assert (snapshots (db P wc) = snapshots (db P w)) as Hstart.
  { rewrite (keeps_snapshots_resolveUnique _ _ _ _ _ _ _ Hc).
    apply keeps_db_newDate in Hb. apply keeps_db_newUuid in Ha. by rewrite Hb, Ha. }
  injection Hcleanup as <-.
  unfold backupBody in H.
  apply bind_ok_inv in H as (u & wf & Hf & H).
  apply keeps_db_fs_update in Hf.
  destruct (buildLocationStorageFolders _ _) as [folders |]; [| done].
  case_bool_decide as Hlocations.
  { apply bind_ok_inv in H as (u1 & w1 & _ & H).
    apply bind_ok_inv in H as (u2 & w2 & _ & H). done. }
  apply bind_ok_inv in H as (tally & wg & Hg & H).
  apply (keeps_forEach (λ w, snapshots (db P w))) in Hg;
    [| intros; apply keeps_snapshots_backupLocation].
  case_bool_decide as Hfiles.
  { apply bind_ok_inv in H as (u1 & w1 & _ & H).
    apply bind_ok_inv in H as (u2 & w2 & _ & H).
    apply bind_ok_inv in H as (u3 & w3 & _ & H). done. }
  apply bind_ok_inv in H as (u1 & w1 & H1 & H).
  apply keeps_snapshots_writeSnapshotManifest in H1.
  apply bind_ok_inv in H as (u2 & w2 & H2 & H).
  apply bind_ok_inv in H as (u3 & w3 & H3 & H).
  apply keeps_db_persistDb in H3.
  apply bind_ok_inv in H as ([] & w4 & H4 & H).
  apply bind_ok_inv in H as (u5 & w5 & H5 & H).
  apply keeps_snapshots_updateGameStatus in H5.
  apply bind_ok_inv in H as (u6 & w6 & H6 & H).
  apply keeps_snapshots_logEvent in H6.
  unfold ret, modifyDb in H, H2. simplify_eq.
  exists w3, w4. rewrite H3. cbn. rewrite H1, Hg, Hf, Hstart.
  repeat split; [done | congruence].
Qed.

Lemma olderThan_asym x y : olderThan P x y = true → olderThan P y x = false.
Proof.
  unfold olderThan. rewrite bool_decide_eq_true, bool_decide_eq_false.
  intros H. by rewrite (localeCompare_antisym P), H.
Qed.

Lemma olderThan_trans x y z :
  olderThan P x y = false → olderThan P y z = false → olderThan P x z = false.
Proof.
  unfold olderThan. rewrite !bool_decide_eq_false. eauto using localeCompare_trans.
Qed.

(** C8. After a successful backup that applies retention, for a game that
    then has more than [retentionCount] snapshots: exactly [retentionCount]
    rows of the game remain; they are the first [retentionCount] of the
    game's rows ranked by [created_at], most recent first; and no removed row
    is more recent than a kept one. [retentionCount] is at least 1, as the
    settings require, and snapshot ids are unique. *)
Theorem retention_after_backup fuel settings gameId reason w snapshot w' :
  let rows := snapshots (db P w) ++ [snapshot] in
  let n := Z.to_nat (retentionCount settings) in
  let kept := snapshotsOfGame (snapshots (db P w')) gameId in
  backupGame P fuel settings gameId reason false w = (Ok (Some snapshot), w') →
  (1 ≤ retentionCount settings)%Z →
  NoDup (snap_id <$> rows) →
  n < length (snapshotsOfGame rows gameId) →
  length kept = n
  ∧ kept ≡ₚ take n (snapshotsByRecency P rows gameId)
  ∧ ∀ k r, k ∈ kept → r ∈ snapshotsOfGame rows gameId → r ∉ kept →
           localeCompare P (snap_created_at r) (snap_created_at k) ≠ Gt.
Proof.
  intros rows n kept Hbackup Hcount Hnodup Hmore.
  apply backupGame_success in Hbackup as (w1 & w2 & Hpushed & Hretention & Hrest & _).
  fold rows in Hpushed.
  apply applyRetentionPolicy_ok in Hretention.
  rewrite Hpushed, Z.max_r in Hretention by done. fold n in Hretention.
  assert (kept ≡ₚ take n (snapshotsByRecency P rows gameId)) as Hkept.
  { unfold kept. rewrite Hrest, Hretention.
    apply retention_keeps_front; [done |]. apply sort_Permutation. }
  assert (snapshotsByRecency P rows gameId ≡ₚ snapshotsOfGame rows gameId) as Hranked
    by apply sort_Permutation.
  split; [| split; [done |]].
  - rewrite Hkept, length_take_le; [done |]. rewrite Hranked. lia.
  - intros k r Hk Hr Hnot. rewrite Hkept in Hk, Hnot.
    rewrite <- Hranked, <- (take_drop n (snapshotsByRecency P rows gameId)) in Hr.
    apply elem_of_app in Hr as [Hr | Hr]; [done |].
    pose proof (sort_take_drop (olderThan P) olderThan_asym olderThan_trans
                  n _ k r Hk Hr) as Hafter.
    unfold olderThan in Hafter. by apply bool_decide_eq_false in Hafter.
Qed.

(** ** A backup that returns [null] has written no file *)

Instance noFileWritten_preorder : PreOrder (@noFileWritten P).
Proof.
  split.
  - intros w. exists []. by rewrite app_nil_r.
  - intros w1 w2 w3 (t1 & H1 & Ht1) (t2 & H2 & Ht2). exists (t1 ++ t2).
    rewrite H2, H1, app_assoc. split; [done | by apply Forall_app].
Qed.

Lemma noFileWritten_same w w' : trace P w' = trace P w → noFileWritten w w'.
Proof. intros H. exists []. by rewrite app_nil_r. Qed.

Lemma noFileWritten_event e w w' :
  trace P w' = trace P w ++ [e] → writesFile e = false → noFileWritten w w'.
Proof. intros H He. exists [e]. split; [done | by constructor]. Qed.

Lemma reads_fs_update e op :
  writesFile e = false → always noFileWritten (fs_update P e op).
Proof.
  intros He w r w'. unfold fs_update. destruct (op (disk P w)).
  intros [= _ <-]. by apply (noFileWritten_event e).
Qed.

Lemma reads_existsSync p : always noFileWritten (fs_existsSync P p).
Proof. intros w r w' [= _ <-]. by apply (noFileWritten_event (EvExists p)). Qed.

Lemma reads_statIsDirectory p : always noFileWritten (fs_statIsDirectory P p).
Proof. intros w r w' [= _ <-]. by apply (noFileWritten_event (EvStat p)). Qed.

Lemma reads_readFile p : always noFileWritten (fs_readFile P p).
Proof. intros w r w' [= _ <-]. by apply (noFileWritten_event (EvReadFile p)). Qed.

Lemma reads_walkFiles p : always noFileWritten (fs_walkFiles P p).
Proof. intros w r w' [= _ <-]. by apply (noFileWritten_event (EvWalk p)). Qed.

Lemma reads_modifyDb f : always noFileWritten (modifyDb P f).
Proof. intros w r w' [= _ <-]. by apply noFileWritten_same. Qed.

Lemma reads_newUuid : always noFileWritten (newUuid P).
Proof. intros w r w' [= _ <-]. by apply noFileWritten_same. Qed.

Lemma reads_newDate : always noFileWritten (newDate P).
Proof. intros w r w' [= _ <-]. by apply noFileWritten_same. Qed.

Create HintDb reads discriminated.

Hint Resolve reads_existsSync reads_statIsDirectory reads_readFile reads_walkFiles
  reads_modifyDb reads_newUuid reads_newDate : reads.

Ltac reads_step :=
  lazymatch goal with
  | |- always _ (bind _ _ _) => apply always_bind; [apply _ | | intros ?]
  | |- always _ (tryCatch _ _ _) => apply always_tryCatch; [apply _ | | intros ?]
  | |- always _ (ret _ _) => apply always_ret, _
  | |- always _ (throw _ _) => apply always_throw, _
  | |- always _ (lift _ _) => apply always_lift, _
  | |- always _ (match ?x with _ => _ end) => destruct x
  | |- always _ _ => solve [eauto with reads]
  end.

Ltac reads_auto := repeat reads_step.

Lemma reads_isDirectoryPath p : always noFileWritten (isDirectoryPath P p).
Proof. unfold isDirectoryPath. reads_auto. Qed.

Lemma reads_resolveUniqueLoop fuel storageRoot gameFolder base candidate suffix :
  always noFileWritten
    (resolveUniqueSnapshotFolderNameLoop P fuel storageRoot gameFolder base candidate suffix).
Proof.
  revert candidate suffix. induction fuel as [| fuel IH]; intros candidate suffix; cbn.
  - intros w r w' [= _ <-]. by apply noFileWritten_same.
  - apply always_bind; [apply _ | apply reads_isDirectoryPath |].
    intros [|]; [apply IH | apply always_ret, _].
Qed.

Lemma reads_resolveUnique fuel storageRoot gameFolder createdAt :
  always noFileWritten
    (resolveUniqueSnapshotFolderName P fuel storageRoot gameFolder createdAt).
Proof.
  unfold resolveUniqueSnapshotFolderName, formatSnapshotTimestamp.
  apply always_bind; [apply _ | | intros; apply reads_resolveUniqueLoop].
  reads_auto.
Qed.

Lemma reads_readSnapshotManifest snapshotRoot :
  always noFileWritten (readSnapshotManifest P snapshotRoot).
Proof. unfold readSnapshotManifest. reads_auto. Qed.

(** Every file that [backupFile] handles ends up in the tally. *)
Lemma backupFile_records snapshotRoot snapshotId location folders tally filePath w tally' w' :
  backupFile P snapshotRoot snapshotId location folders tally filePath w = (Ok tally', w') →
  tally_files tally' ≠ [].
Proof.
  unfold backupFile. intros H.
  apply bind_ok_inv in H as (u1 & w1 & _ & H).
  apply bind_ok_inv in H as (size & w2 & _ & H).
  apply bind_ok_inv in H as (checksum & w3 & _ & H).
  apply bind_ok_inv in H as (id & w4 & _ & H).
  injection H as <- _. cbn. by destruct (tally_files tally).
Qed.

Lemma backupFiles_empty snapshotRoot snapshotId location folders files tally w tally' w' :
  forEach P (backupFile P snapshotRoot snapshotId location folders) files tally w
  = (Ok tally', w') →
  tally_files tally' = [] → files = [] ∧ tally_files tally = [] ∧ w' = w.
Proof.
  revert tally w. induction files as [| filePath files IH]; intros tally w; cbn.
  - by intros [= <- <-].
  - intros H Hempty. apply bind_ok_inv in H as (tally1 & w1 & H1 & H).
    apply backupFile_records in H1. by destruct (IH _ _ H Hempty) as (_ & ? & _).
Qed.

Lemma backupLocation_empty gameId snapshotRoot snapshotId folders tally location w tally' w' :
  backupLocation P gameId snapshotRoot snapshotId folders tally location w = (Ok tally', w') →
  tally_files tally' = [] → tally_files tally = [] ∧ noFileWritten w w'.
Proof.
  unfold backupLocation. intros H Hempty.
  apply bind_ok_inv in H as (present & w1 & H1 & H).
  apply reads_existsSync in H1.
  destruct (negb present).
  - apply bind_ok_inv in H as (u & w2 & H2 & H). apply reads_modifyDb in H2.
    injection H as <- <-. split; [done | by trans w1].
  - apply bind_ok_inv in H as (files & w2 & H2 & H).
    apply backupFiles_empty in H as (-> & Htally & ->); [| done].
    split; [done |]. trans w1; [done |].
    unfold listFilesForLocation in H2. destruct (loc_type location); [| done].
    by apply reads_walkFiles in H2.
Qed.

Lemma backupLocations_empty gameId snapshotRoot snapshotId folders locations tally w tally' w' :
  forEach P (backupLocation P gameId snapshotRoot snapshotId folders) locations tally w
  = (Ok tally', w') →
  tally_files tally' = [] → tally_files tally = [] ∧ noFileWritten w w'.
Proof.
  revert tally w. induction locations as [| location locations IH]; intros tally w; cbn.
  - by intros [= <- <-].
  - intros H Hempty. apply bind_ok_inv in H as (tally1 & w1 & H1 & H).
    destruct (IH _ _ H Hempty) as [Hempty1 Hrest].
    destruct (backupLocation_empty _ _ _ _ _ _ _ _ _ H1 Hempty1) as [? Hfirst].
    split; [done | by trans w1].
Qed.

Lemma backupBody_null fuel settings gameId reason skipRetention snapshotId createdAt
    snapshotRoot w w' :
  backupBody P fuel settings gameId reason skipRetention snapshotId createdAt snapshotRoot w
  = (Ok None, w') →
  noFileWritten w w'.
Proof.
  unfold backupBody. intros H.
  apply bind_ok_inv in H as (u & w1 & H1 & H).
  apply (reads_fs_update (EvEnsureDir snapshotRoot)) in H1; [| done].
  trans w1; [done |]. clear H1.
  destruct (buildLocationStorageFolders _ _) as [folders |]; [| done].
  case_bool_decide as Hlocations.
  - apply bind_ok_inv in H as (u1 & w2 & H2 & H). apply reads_modifyDb in H2.
    apply bind_ok_inv in H as (u2 & w3 & H3 & H). apply reads_modifyDb in H3.
    injection H as <-. by trans w2.
  - apply bind_ok_inv in H as (tally & w2 & H2 & H).
    case_bool_decide as Hfiles.
    + apply backupLocations_empty in H2 as [_ H2]; [| done].
      apply bind_ok_inv in H as (u1 & w3 & H3 & H). apply reads_modifyDb in H3.
      apply bind_ok_inv in H as (u2 & w4 & H4 & H). apply reads_modifyDb in H4.
      apply bind_ok_inv in H as (u3 & w5 & H5 & H).
      apply (reads_fs_update (EvRemoveDir snapshotRoot)) in H5; [| done].
      injection H as <-. trans w2; [done |]. trans w3; [done |]. by trans w4.
    + apply bind_ok_inv in H as (u1 & w3 & _ & H).
      apply bind_ok_inv in H as (u2 & w4 & _ & H).
      apply bind_ok_inv in H as (u3 & w5 & _ & H).
      apply bind_ok_inv in H as (u4 & w6 & _ & H).
      apply bind_ok_inv in H as (u5 & w7 & _ & H).
      apply bind_ok_inv in H as (u6 & w8 & _ & H).
      done.
Qed.

Lemma backupGame_null fuel settings gameId reason skipRetention w w' :
  backupGame P fuel settings gameId reason skipRetention w = (Ok None, w') →
  noFileWritten w w'.
Proof.
  unfold backupGame. case_bool_decide as Hbusy; [by intros [= <-] |].
  set (w0 := setInFlight P _ w).
  destruct (getStoredGameById (db P w0) gameId) as [game |]; [| done].
  intros H.
  apply bind_ok_inv in H as (snapshotId & wa & Ha & H). apply reads_newUuid in Ha.
  apply bind_ok_inv in H as (now & wb & Hb & H). apply reads_newDate in Hb.
  apply bind_ok_inv in H as (folder & wc & Hc & H). apply reads_resolveUnique in Hc.
  apply tryFinally_ok_inv in H as (wd & H & Hcleanup).
  apply tryCatch_ok_inv in H as [H | (e & we & _ & H)];
    [| by apply backupRollback_not_ok in H].
  apply backupBody_null in H. injection Hcleanup as <-.
  trans w0; [by apply noFileWritten_same |]. trans wa; [done |]. trans wb; [done |].
  trans wc; [done |]. trans wd; [done |]. by apply noFileWritten_same.
Qed.

(** C3. A restore of an indexed snapshot with a valid manifest whose safety
    backup (reason [pre-restore], retention skipped) returns [null] throws
    "Restore blocked: failed to create safety backup before restore."; it
    stops in the very world the safety backup left, and since it started no
    file has been copied or written anywhere, so no destination location
    received anything. *)
Theorem restore_blocked_without_safety_backup fuel settings snapshotId w snapshot manifest w1 w2 :
  findSnapshot (db P w) snapshotId = Some snapshot →
  readSnapshotManifest P (snap_storage_path snapshot) w = (Ok (Some manifest), w1) →
  backupGame P fuel settings (snap_game_id snapshot) ReasonPreRestore true w1 = (Ok None, w2) →
  restoreSnapshot P fuel settings snapshotId w
  = (Throw "Restore blocked: failed to create safety backup before restore.", w2)
  ∧ noFileWritten w w2.
Proof.
  intros Hfind Hmanifest Hbackup. split.
  - unfold restoreSnapshot. rewrite Hfind. unfold bind at 1. rewrite Hmanifest.
    unfold bind. by rewrite Hbackup.
  - trans w1; [by eapply reads_readSnapshotManifest | by eapply backupGame_null].
Qed.

(** ** The containment guard *)

Lemma startsWith_app (text p q : string) :
  startsWith text (p +:+ q) = true → startsWith text p = true.
Proof.
  unfold startsWith. revert text. induction p as [| c p IH]; intros text.
  - by destruct text.
  - destruct text as [| d text]; [done |].
    change (String c p +:+ q) with (String c (p +:+ q)). simpl.
    destruct (Ascii.ascii_dec c d); [apply IH | done].
Qed.

(** Except for a file-system root, whose normalized form ends with a
    separator, the guard accepts exactly the paths of [specWithinRoot]. *)
Lemma assertPathWithinRoot_escape rootPath targetPath context :
  endsWith (normalizePathForKey P rootPath) (path_sep P) = false →
  specWithinRoot P rootPath targetPath = false →
  assertPathWithinRoot P rootPath targetPath context
  = Throw (context +:+ " resolves outside its allowed root.").
Proof.
  unfold assertPathWithinRoot, specWithinRoot. by intros -> ->.
Qed.

Lemma assertPathWithinRoot_inside rootPath targetPath context :
  specWithinRoot P rootPath targetPath = true →
  assertPathWithinRoot P rootPath targetPath context = Ok tt.
Proof.
  unfold assertPathWithinRoot, specWithinRoot. intros H.
  destruct (endsWith _ _); [| by rewrite H].
  apply orb_true_iff in H as [-> | H]; [done |].
  by rewrite (startsWith_app _ _ _ H), orb_true_r.
Qed.

Lemma verifyFiles_app snapshotRoot manifest pre rest issues w :
  verifyFiles P snapshotRoot manifest (pre ++ rest) issues w
  = bind P (verifyFiles P snapshotRoot manifest pre issues)
      (verifyFiles P snapshotRoot manifest rest) w.
Proof.
  revert issues w. induction pre as [| file pre IH]; intros issues w; [done |].
  cbn [verifyFiles app]. rewrite bind_assoc. apply bind_ext. intros absolutePath w1.
  rewrite bind_assoc. apply bind_ext. intros present w2.
  destruct (negb present); [apply IH |].
  rewrite bind_assoc. apply bind_ext. intros checksum w3. apply IH.
Qed.

Lemma restoreFiles_app snapshotRoot manifest locationMap pre rest w :
  restoreFiles P snapshotRoot manifest locationMap (pre ++ rest) w
  = bind P (restoreFiles P snapshotRoot manifest locationMap pre)
      (λ _, restoreFiles P snapshotRoot manifest locationMap rest) w.
Proof.
  revert w. induction pre as [| file pre IH]; intros w; [done |].
  cbn [restoreFiles app].
  destruct (locationMap !! file_location_id file) as [location |]; [| apply IH].
  destruct (negb (loc_enabled location)); [apply IH |].
  rewrite bind_assoc. apply bind_ext. intros sourcePath w1.
  rewrite bind_assoc. apply bind_ext. intros present w2.
  destruct (negb present); [apply IH |].
  rewrite bind_assoc. apply bind_ext. intros u3 w3.
  rewrite bind_assoc. apply bind_ext. intros u4 w4. apply IH.
Qed.

(** C2. A snapshot file whose manifest entry declares a storage folder that
    makes it resolve outside the snapshot root makes [verifySnapshot] throw
    "Snapshot file path resolves outside its allowed root."; it makes
    [restoreSnapshot] throw the same, once its safety backup exists, when the
    save location of the file is still in the index and enabled. Both stop in
    the very world in which their loop reached the file: its turn makes no
    access to the file system. When the save location of the file is missing
    or disabled, [restoreSnapshot] passes the file over instead: it raises
    nothing for it, makes no access for it, and goes on with the files that
    follow. A file that resolves to the root or inside it is accepted. The
    snapshot root is not a file-system root. *)
Theorem path_escape_is_blocked fuel settings snapshotId w snapshot manifest w1
    pre file post entry :
  let root := snap_storage_path snapshot in
  let target := path_resolve P [root; ml_storage_folder entry; file_relative_path file] in
  let escape := "Snapshot file path resolves outside its allowed root." in
  findSnapshot (db P w) snapshotId = Some snapshot →
  readSnapshotManifest P root w = (Ok (Some manifest), w1) →
  filesOfSnapshot (db P w) snapshotId = pre ++ file :: post →
  m_locations manifest !! file_location_id file = Some entry →
  isEmpty (trim (ml_storage_folder entry)) = false →
  endsWith (normalizePathForKey P root) (path_sep P) = false →
  (specWithinRoot P root target = false →
     (∀ issues w2,
        verifyFiles P root manifest pre 0 w1 = (Ok issues, w2) →
        verifySnapshot P snapshotId w = (Throw escape, w2))
     ∧ (∀ safety w2 location w3,
        backupGame P fuel settings (snap_game_id snapshot) ReasonPreRestore true w1
        = (Ok (Some safety), w2) →
        locationMapOf (listSaveLocations (db P w) (snap_game_id snapshot))
          !! file_location_id file = Some location →
        loc_enabled location = true →
        restoreFiles P root manifest
          (locationMapOf (listSaveLocations (db P w) (snap_game_id snapshot))) pre w2
        = (Ok tt, w3) →
        restoreSnapshot P fuel settings snapshotId w = (Throw escape, w3))
     ∧ (∀ safety w2 w3,
        backupGame P fuel settings (snap_game_id snapshot) ReasonPreRestore true w1
        = (Ok (Some safety), w2) →
        loc_enabled
          <$> locationMapOf (listSaveLocations (db P w) (snap_game_id snapshot))
                !! file_location_id file
        ≠ Some true →
        restoreFiles P root manifest
          (locationMapOf (listSaveLocations (db P w) (snap_game_id snapshot))) pre w2
        = (Ok tt, w3) →
        restoreSnapshot P fuel settings snapshotId w
        = bind P
            (restoreFiles P root manifest
               (locationMapOf (listSaveLocations (db P w) (snap_game_id snapshot))) post)
            (λ _, modifyDb P
                    (logEvent (Some (snap_game_id snapshot)) EventRestore
                       ("Snapshot restored (" +:+ snap_created_at snapshot +:+ ").")))
            w3))
  ∧ (specWithinRoot P root target = true →
     resolveSnapshotFileAbsolutePath P root file manifest = Ok target).
Proof.
  intros root target escape Hfind Hmanifest Hfiles Hentry Hfolder Hroot. split.
  - intros Hescape.
    assert (resolveSnapshotFileAbsolutePath P root file manifest = Throw escape) as Hguard.
    { unfold resolveSnapshotFileAbsolutePath. rewrite Hentry. cbn. rewrite Hfolder.
      fold target. by rewrite assertPathWithinRoot_escape. }
    split_and!.
    + intros issues w2 Hpre. unfold verifySnapshot. rewrite Hfind, Hfiles.
      fold root. unfold bind at 1. rewrite Hmanifest.
      unfold bind at 1. rewrite verifyFiles_app. unfold bind at 1. rewrite Hpre.
      cbn. unfold bind at 1, lift. by rewrite Hguard.
    + intros safety w2 location w3 Hbackup Hlocation Henabled Hpre.
      unfold restoreSnapshot. rewrite Hfind, Hfiles.
      fold root. unfold bind at 1. rewrite Hmanifest.
      unfold bind at 1. rewrite Hbackup.
      unfold bind at 1. rewrite restoreFiles_app. unfold bind at 1. rewrite Hpre.
      cbn. rewrite Hlocation, Henabled. cbn. unfold bind at 1, lift. by rewrite Hguard.
    + intros safety w2 w3 Hbackup Hlocation Hpre.
      unfold restoreSnapshot. rewrite Hfind, Hfiles.
      fold root. unfold bind at 1. rewrite Hmanifest.
      unfold bind at 1. rewrite Hbackup.
      unfold bind at 1. rewrite restoreFiles_app. unfold bind at 1. rewrite Hpre.
      cbn [restoreFiles].
      destruct (locationMapOf _ !! file_location_id file) as [location |] eqn:Hfound;
        [| reflexivity].
      destruct (loc_enabled location) eqn:Henabled; [| reflexivity].
      cbn in Hlocation. by rewrite Henabled in Hlocation.
  - intros Hinside. unfold resolveSnapshotFileAbsolutePath. rewrite Hentry. cbn.
    rewrite Hfolder. fold target. by rewrite assertPathWithinRoot_inside.
Qed.

End BackupFacts.

(** ** The theorems at work on the sample worlds *)

Section BackupInstances.

Import Fixture Sample.

Local Ltac compute_true := apply (bool_decide_unpack _); vm_compute; exact I.

(** A run on a sample world is checked by evaluating it. *)
Local Ltac by_running :=
  lazymatch goal with
  | |- @eq ?T _ ?result =>
      let value := eval vm_compute in result in vm_cast_no_check (@eq_refl T value)
  end.

Local Ltac compute_false := intros Hfalse; vm_compute in Hfalse; discriminate Hfalse.

Lemma backupGame_in_flight_witness :
  backupGame platform 5 (settings 2) "game-1" ReasonAuto false
    (world library {["game-1"]} (savesDisk "manifest:inside" []))
  = (Ok None, world library {["game-1"]} (savesDisk "manifest:inside" [])).
Proof. apply backupGame_in_flight_returns_null. compute_true. Defined.

Lemma unknown_snapshot_witness :
  let w := world library ∅ (savesDisk "manifest:inside" []) in
  deleteSnapshot platform "snap-404" true w = (Ok tt, w)
  ∧ verifySnapshot platform "snap-404" w = (Throw "Snapshot not found", w)
  ∧ restoreSnapshot platform 5 (settings 2) "snap-404" w = (Throw "Snapshot not found", w).
Proof. apply unknown_snapshot_delete_is_noop. compute_true. Defined.

(** The directory of [snap-1] is locked: the deletion fails and the index
    keeps the row and its file row. *)
Lemma deleteSnapshot_failure_witness :
  let locked := savesDisk "manifest:inside" ["C:\Backups\GameOne\Snapshots\snap-1"] in
  let w := world library ∅ locked in
  ∃ w', deleteSnapshot platform "snap-1" true w = (Throw "locked", w')
        ∧ db platform w' = db platform w
        ∧ snapshotRow "snap-1" "game-1" "2026-01-01T00:00:00.000Z" ∈ snapshots (db platform w')
        ∧ filesOfSnapshot (db platform w') "snap-1" = filesOfSnapshot (db platform w) "snap-1".
Proof.
  intros locked w.
  apply (deleteSnapshot_failure_keeps_index platform "snap-1" true w _ "locked" locked);
    reflexivity.
Defined.

Lemma restore_blocked_witness :
  restoreSnapshot platform 5 (settings 2) "snap-1" blockedStart
  = (Throw "Restore blocked: failed to create safety backup before restore.",
     blockedAfterBackup)
  ∧ noFileWritten blockedStart blockedAfterBackup.
Proof.
  apply (restore_blocked_without_safety_backup platform 5 (settings 2) "snap-1" blockedStart
           (snapshotRow "snap-1" "game-1" "2026-01-01T00:00:00.000Z")
           {| m_snapshot_id := "snap-1"; m_created_at := "2026-01-01T00:00:00.000Z";
              m_reason := ReasonManual; m_locations := ∅ |}
           blockedAfterManifest blockedAfterBackup);
    vm_compute; reflexivity.
Defined.

Lemma retention_witness :
  length (snapshotsOfGame (snapshots (db platform retentionEnd)) "game-1") = 2
  ∧ snapshotsOfGame (snapshots (db platform retentionEnd)) "game-1"
    ≡ₚ [retentionSnapshot; snapshotRow "snap-2" "game-1" "2026-01-02T00:00:00.000Z"].
Proof.
  destruct (retention_after_backup platform 5 (settings 2) "game-1" ReasonManual
              retentionStart retentionSnapshot retentionEnd) as (Hcount & Hkept & _).
  - vm_compute. reflexivity.
  - vm_compute. discriminate.
  - apply (bool_decide_unpack _). vm_compute. exact I.
  - vm_compute. lia.
  - split; [exact Hcount | exact Hkept].
Defined.

(** The manifest of [snap-1] sends its file to [..\..\outside]. The
    verification stops at the file with the path-escape error, and so does
    the restore while the location of the file is enabled; once the location
    is disabled, the restore passes the file over and completes. *)
Lemma path_escape_witness :
  verifySnapshot platform "snap-1" escapeStart
  = (Throw "Snapshot file path resolves outside its allowed root.", escapeAfterManifest)
  ∧ restoreSnapshot platform 5 (settings 2) "snap-1" escapeStart
    = (Throw "Snapshot file path resolves outside its allowed root.", escapeAfterBackup)
  ∧ (restoreSnapshot platform 5 (settings 2) "snap-1" escapeDisabledStart).1 = Ok tt.
Proof.
  split_and!.
  - destruct (path_escape_is_blocked platform 5 (settings 2) "snap-1" escapeStart
                (snapshotRow "snap-1" "game-1" "2026-01-01T00:00:00.000Z")
                escapeManifest escapeAfterManifest
                [] (fileRow "file-1" "snap-1" "loc-1" "save.sav") []
                {| ml_path := "C:\Saves"; ml_type := TypeFolder; ml_auto_detected := false;
                   ml_enabled := true; ml_storage_folder := "..\..\outside" |})
      as [Hescape _]; [by_running.. |].
    destruct Hescape as (Hverify & _ & _); [by_running |].
    apply (Hverify 0%Z). reflexivity.
  - destruct (path_escape_is_blocked platform 5 (settings 2) "snap-1" escapeStart
                (snapshotRow "snap-1" "game-1" "2026-01-01T00:00:00.000Z")
                escapeManifest escapeAfterManifest
                [] (fileRow "file-1" "snap-1" "loc-1" "save.sav") []
                {| ml_path := "C:\Saves"; ml_type := TypeFolder; ml_auto_detected := false;
                   ml_enabled := true; ml_storage_folder := "..\..\outside" |})
      as [Hescape _]; [by_running.. |].
    destruct Hescape as (_ & Hrestore & _); [by_running |].
    apply (Hrestore escapeSafety escapeAfterBackup savesFolder);
      [by_running | by_running | reflexivity | reflexivity].
  - destruct (path_escape_is_blocked platform 5 (settings 2) "snap-1" escapeDisabledStart
                (snapshotRow "snap-1" "game-1" "2026-01-01T00:00:00.000Z")
                escapeManifest escapeDisabledAfterManifest
                [] (fileRow "file-1" "snap-1" "loc-1" "save.sav") []
                {| ml_path := "C:\Saves"; ml_type := TypeFolder; ml_auto_detected := false;
                   ml_enabled := true; ml_storage_folder := "..\..\outside" |})
      as [Hescape _]; [by_running.. |].
    destruct Hescape as (_ & _ & Hskip); [by_running |].
    rewrite (Hskip escapeDisabledSafety escapeDisabledAfterBackup escapeDisabledAfterBackup);
      [by_running | by_running | compute_false | reflexivity].
Defined.

(** The file of [snap-1] resolves outside the snapshot root, to
    [C:\Backups\GameOne\outside\save.sav], and verification refuses it; but
    its save location is disabled, and the restore of [snap-1] returns
    normally, with the event "Snapshot restored". *)
Lemma restore_passes_over_escaping_file :
  specWithinRoot platform "C:\Backups\GameOne\Snapshots\snap-1"
    (path_resolve platform
       ["C:\Backups\GameOne\Snapshots\snap-1"; "..\..\outside"; "save.sav"])
  = false
  ∧ (verifySnapshot platform "snap-1" escapeDisabledStart).1
    = Throw "Snapshot file path resolves outside its allowed root."
  ∧ (restoreSnapshot platform 5 (settings 2) "snap-1" escapeDisabledStart).1 = Ok tt
  ∧ last (eventLogs (db platform
                       (restoreSnapshot platform 5 (settings 2) "snap-1"
                          escapeDisabledStart).2))
    = Some {| log_game_id := Some "game-1"; log_type := EventRestore;
              log_message := "Snapshot restored (2026-01-01T00:00:00.000Z)." |}.
Proof. split_and!; by_running. Qed.

(** Two locations that both hold a [save.dat]: the checksum of the two rows
    changes with their order. *)
Lemma checksum_order_example :
  let a := {| file_id := "file-1"; file_snapshot_id := "snap-1"; file_location_id := "loc-1";
              file_relative_path := "save.dat"; file_size_bytes := 3;
              file_checksum := "aaa" |} in
  let b := {| file_id := "file-2"; file_snapshot_id := "snap-1"; file_location_id := "loc-2";
              file_relative_path := "save.dat"; file_size_bytes := 3;
              file_checksum := "bbb" |} in
  computeSnapshotChecksum platform [a; b]
  = "sha256(loc-1:save.dat:aaa:3|loc-2:save.dat:bbb:3)"
  ∧ computeSnapshotChecksum platform [b; a]
    = "sha256(loc-2:save.dat:bbb:3|loc-1:save.dat:aaa:3)".
Proof. split; vm_compute; reflexivity. Qed.

End BackupInstances.

(** * Properties of the catalog detector *)

Section CatalogFacts.

Variable P : Platform.
Variable d : Disk P.
Variable H : DetectorHost.

Implicit Types (st : DetectorState) (r : CatalogSaveDetectionResult).

Lemma bindD_ok_inv {A B} (m : D A) (k : A → D B) st b st' :
  bindD m k st = (Ok b, st') →
  ∃ a st1, m st = (Ok a, st1) ∧ k a st1 = (Ok b, st').
Proof.
  unfold bindD. destruct (m st) as [[a | e |] st1]; intros Hm; try discriminate.
  by exists a, st1.
Qed.

Lemma rankEntries_nonempty queryNames entries :
  entries ≠ [] → rankEntries queryNames entries ≠ [].
Proof.
  intros Hentries Hranked. apply Hentries.
  apply (f_equal length) in Hranked. unfold rankEntries in Hranked.
  rewrite sort_Permutation, length_map in Hranked. by destruct entries.
Qed.

(** ** The similarity threshold *)

(** What [detectFromRanking] returns has the best score as its [matchScore];
    it is [NoMatch] when that score is below 0.45 and one of the later
    outcomes otherwise. *)
Lemma detectFromRanking_ok input adapters meta best others st r st' :
  detectFromRanking P H input adapters meta (best :: others) st = (Ok r, st') →
  matchScore r = best.2
  ∧ if (best.2 <? 0.45)%float then status r = NoMatch
    else status r = NoWindowsLocations ∨ status r = NoValidCandidates ∨ status r = Matched.
Proof.
  unfold detectFromRanking. destruct (best.2 <? 0.45)%float.
  { intros [= <- _]. by split. }
  case_bool_decide as Hlocations.
  { intros [= <- _]. split; [done | by left]. }
  intros Hrun.
  apply bindD_ok_inv in Hrun as (steam & st1 & _ & Hrun).
  apply bindD_ok_inv in Hrun as (u1 & st2 & _ & Hrun).
  apply bindD_ok_inv in Hrun as (resolved & st3 & _ & Hrun).
  apply bindD_ok_inv in Hrun as (u2 & st4 & _ & Hrun).
  case_bool_decide as Hmerged; injection Hrun as <- _; (split; [done |]); auto.
Qed.

Lemma detect_ok_inv input adapters st r st' :
  detectCatalogSavePaths P d H input adapters st = (Ok r, st') →
  status r = CatalogMissing ∨ status r = CatalogInvalid
  ∨ ∃ meta entries st1,
      entries ≠ []
      ∧ detectFromRanking P H input adapters meta
          (rankEntries (queryNamesOf P H input meta) entries) st1 = (Ok r, st').
Proof.
  unfold detectCatalogSavePaths. intros Hrun.
  apply bindD_ok_inv in Hrun as (u1 & st1 & _ & Hrun).
  apply bindD_ok_inv in Hrun as (loaded & st2 & _ & Hrun).
  destruct loaded as [[| entry entries] |].
  - injection Hrun as <- _. by right; left.
  - apply bindD_ok_inv in Hrun as (u2 & st3 & _ & Hrun).
    apply bindD_ok_inv in Hrun as (meta & st4 & _ & Hrun).
    right; right. by exists meta, (entry :: entries), st4.
  - injection Hrun as <- _. by left.
Qed.

(** C4. The comparison with the similarity threshold is strict, so it is a
    best score strictly below 0.45 that is rejected: whenever detection gets
    as far as ranking the titles, its status is [NoMatch] exactly when the
    best score is below 0.45. A best score of exactly 0.45 is accepted, as is
    0.46: detection goes on to resolve the locations of the matched title. *)
Theorem threshold_accepts_score_at_045 input adapters st r st' :
  detectCatalogSavePaths P d H input adapters st = (Ok r, st') →
  status r ≠ CatalogMissing →
  status r ≠ CatalogInvalid →
  (status r = NoMatch ↔ (matchScore r <? 0.45)%float = true)
  ∧ (matchScore r = 0.45%float ∨ matchScore r = 0.46%float →
     status r = NoWindowsLocations ∨ status r = NoValidCandidates ∨ status r = Matched).
Proof.
  intros Hrun Hmissing Hinvalid.
  apply detect_ok_inv in Hrun as [? | [? | (meta & entries & st1 & Hentries & Hrun)]];
    [done | done |].
  destruct (rankEntries (queryNamesOf P H input meta) entries) as [| best others] eqn:Hranked;
    [by apply rankEntries_nonempty in Hranked |].
  apply detectFromRanking_ok in Hrun as [-> Hstatus].
  split.
  - destruct (best.2 <? 0.45)%float; [done |].
    split; [| done]. intros Hno. by destruct Hstatus as [? | [? | ?]]; congruence.
  - intros [Hscore | Hscore]; rewrite Hscore in Hstatus; exact Hstatus.
Qed.

(** ** The root of the catalog document *)

Lemma reportProgress_cache callback payload st x st' :
  reportProgress callback payload st = (x, st') → catalogCache st' = catalogCache st.
Proof.
  unfold reportProgress. destruct callback as [call |]; by intros [= _ <-].
Qed.

Lemma loadCatalogEntries_bare_array catalog adapters st mtime raw items :
  adapter_loadCatalogEntries adapters = None →
  existsSync P d catalog = true →
  statMtimeMs H catalog = Some mtime →
  catalogCache st !! path_resolve P [catalog] = None →
  readFile P d catalog = Ok raw →
  JSON_parse P raw = Some (JArray items) →
  loadCatalogEntries P d H catalog adapters st = (Ok (Some []), st).
Proof.
  intros Hadapter Hexists Hstat Hcache Hread Hparse.
  unfold loadCatalogEntries. by rewrite Hadapter, Hexists, Hstat, Hcache, Hread, Hparse.
Qed.

(** C5. A catalog file whose JSON root is a bare array is not parsed:
    [getCatalogGamesArray] refuses an array, the loader returns no entry and
    detection reports the catalog as invalid, however valid the entries of
    the array are. It is a root object with a [games] array whose entries are
    parsed. (The file exists, can be read, and is not in the cache.) *)
Theorem bare_array_catalog_is_invalid input adapters st mtime raw :
  adapter_loadCatalogEntries adapters = None →
  existsSync P d (catalogPath input) = true →
  statMtimeMs H (catalogPath input) = Some mtime →
  catalogCache st !! path_resolve P [catalogPath input] = None →
  readFile P d (catalogPath input) = Ok raw →
  (∀ items,
     JSON_parse P raw = Some (JArray items) →
     loadCatalogEntries P d H (catalogPath input) adapters st = (Ok (Some []), st)
     ∧ ∀ r st', detectCatalogSavePaths P d H input adapters st = (Ok r, st') →
                status r = CatalogInvalid)
  ∧ (∀ fields games,
       JSON_parse P raw = Some (JObject fields) →
       getField fields "games" = Some (JArray games) →
       (loadCatalogEntries P d H (catalogPath input) adapters st).1
       = Ok (Some (parseCatalogEntries games))).
Proof.
  intros Hadapter Hexists Hstat Hcache Hread. split.
  - intros items Hparse. split; [by eapply loadCatalogEntries_bare_array |].
    intros r st' Hrun. unfold detectCatalogSavePaths in Hrun.
    apply bindD_ok_inv in Hrun as (u1 & st1 & Hreport & Hrun).
    apply reportProgress_cache in Hreport.
    apply bindD_ok_inv in Hrun as (loaded & st2 & Hload & Hrun).
    rewrite (loadCatalogEntries_bare_array _ _ _ mtime raw items) in Hload
      by (done || by rewrite Hreport).
    injection Hload as <- <-. by injection Hrun as <- _.
  - intros fields games Hparse Hgames. unfold loadCatalogEntries.
    rewrite Hadapter, Hexists, Hstat, Hcache, Hread, Hparse. cbn. by rewrite Hgames.
Qed.

(** ** Exceptions of the progress callback *)

Lemma allOk_app call history sent1 sent2 :
  allOk call history sent1 → allOk call (history ++ sent1) sent2 →
  allOk call history (sent1 ++ sent2).
Proof.
  revert history. induction sent1 as [| payload sent1 IH]; intros history; cbn.
  - by rewrite app_nil_r.
  - intros [Hfirst Hrest] Hlater. split; [done |]. apply IH; [done |].
    by rewrite <- app_assoc.
Qed.

Instance allReturned_preorder call : PreOrder (allReturned call).
Proof.
  split.
  - intros st. exists []. by rewrite app_nil_r.
  - intros st1 st2 st3 (sent1 & H1 & Hall1) (sent2 & H2 & Hall2).
    exists (sent1 ++ sent2). split; [by rewrite H2, H1, app_assoc |].
    apply allOk_app; [done | by rewrite <- H1].
Qed.

Lemma allReturned_same call st st' : delivered st' = delivered st → allReturned call st st'.
Proof. intros Hsame. exists []. by rewrite app_nil_r. Qed.

Lemma returns_pureD {A} call (a : A) : returns call (pureD a).
Proof. intros st b st' [= _ <-]. reflexivity. Qed.

Lemma returns_liftD {A} call (x : Result A) : returns call (liftD x).
Proof. intros st b st' [= _ <-]. reflexivity. Qed.

Lemma returns_bindD {A B} call (m : D A) (k : A → D B) :
  returns call m → (∀ a, returns call (k a)) → returns call (bindD m k).
Proof.
  intros Hm Hk st b st' Hrun.
  apply bindD_ok_inv in Hrun as (a & st1 & H1 & H2).
  trans st1; [by eapply Hm | by eapply Hk].
Qed.

Lemma returns_reportProgress call payload : returns call (reportProgress (Some call) payload).
Proof.
  intros st [] st' [= Hcall <-]. eexists [_]. split; [done |]. by split.
Qed.

Lemma returns_loadCatalogEntries call catalog adapters :
  returns call (loadCatalogEntries P d H catalog adapters).
Proof.
  intros st a st' Hrun. apply allReturned_same. unfold loadCatalogEntries in Hrun.
  destruct (adapter_loadCatalogEntries adapters); [by injection Hrun as _ <- |].
  repeat case_match; by simplify_eq.
Qed.

Lemma returns_resolveLocations call adapters context bestTitle totalLocations index rest
    resolved :
  returns call (resolveLocations H (Some call) adapters context bestTitle totalLocations
                  index rest resolved).
Proof.
  revert index resolved.
  induction rest as [| rawLocation rest IH]; intros index resolved; cbn [resolveLocations].
  - apply returns_pureD.
  - destruct (isEmpty rawLocation); [apply IH |].
    apply returns_bindD; [apply returns_reportProgress | intros _].
    apply returns_bindD; [apply returns_liftD | intros found].
    apply returns_bindD; [apply returns_reportProgress | intros _]. apply IH.
Qed.

Lemma returns_detectFromRanking call input adapters meta ranked :
  onProgress input = Some call →
  returns call (detectFromRanking P H input adapters meta ranked).
Proof.
  intros Hcallback. unfold detectFromRanking. rewrite Hcallback.
  destruct ranked as [| best others]; [apply returns_pureD |].
  destruct (best.2 <? 0.45)%float; [apply returns_pureD |].
  case_bool_decide; [apply returns_pureD |].
  apply returns_bindD; [apply returns_liftD | intros steam].
  apply returns_bindD; [apply returns_reportProgress | intros _].
  apply returns_bindD; [apply returns_resolveLocations | intros resolved].
  apply returns_bindD; [apply returns_reportProgress | intros _].
  case_bool_decide; apply returns_pureD.
Qed.

Lemma returns_detect call input adapters :
  onProgress input = Some call →
  returns call (detectCatalogSavePaths P d H input adapters).
Proof.
  intros Hcallback. unfold detectCatalogSavePaths. rewrite Hcallback.
  apply returns_bindD; [apply returns_reportProgress | intros _].
  apply returns_bindD; [apply returns_loadCatalogEntries | intros loaded].
  destruct loaded as [[| entry entries] |]; try apply returns_pureD.
  apply returns_bindD; [apply returns_reportProgress | intros _].
  apply returns_bindD; [apply returns_liftD | intros meta].
  by apply returns_detectFromRanking.
Qed.

(** The first report: its payload needs no clamping. *)
Lemma reportProgress_loading call st :
  reportProgress (Some call) loadingProgress st
  = (call (delivered st) loadingProgress,
     {| catalogCache := catalogCache st; delivered := delivered st ++ [loadingProgress] |}).
Proof. reflexivity. Qed.

(** C9. An exception of the progress callback is not swallowed:
    [reportProgress] calls the callback with no handler around the call, so
    the exception leaves [detectCatalogSavePaths], which is aborted. A
    callback that throws on the first report makes detection throw that
    exception; and detection returns a result only if every invocation of the
    callback returned normally. *)
Theorem callback_exception_aborts_detection input adapters st call :
  onProgress input = Some call →
  (∀ e, call (delivered st) loadingProgress = Throw e →
        (detectCatalogSavePaths P d H input adapters st).1 = Throw e)
  ∧ (∀ r st', detectCatalogSavePaths P d H input adapters st = (Ok r, st') →
              allReturned call st st').
Proof.
  intros Hcallback. split.
  - intros e Hthrow. unfold detectCatalogSavePaths. rewrite Hcallback.
    unfold bindD at 1. fold loadingProgress. rewrite reportProgress_loading.
    by rewrite Hthrow.
  - intros r st' Hrun. by eapply returns_detect.
Qed.

End CatalogFacts.

(** ** The detector at work on the sample catalogs *)

Section CatalogInstances.

Import Fixture Sample.

(** *** A best score of exactly 0.45 *)

(** The only title of the catalog scores 9/20 = 0.45 against the name of the
    game, and the game is matched. *)
Lemma score_045_is_matched :
  scoreTitleSimilarity nineOfTwentyName "a1 a2 a3 a4 a5 a6 a7 a8 a9 c1 c2 c3 c4 c5 c6"
  = 0.45%float
  ∧ detectCatalogSavePaths platform installDisk (host installDisk) thresholdInput
      nineOfTwenty freshDetector
    = (Ok thresholdResult, freshDetector).
Proof. split; vm_compute; reflexivity. Qed.

Lemma threshold_witness :
  (status thresholdResult = NoMatch ↔ (matchScore thresholdResult <? 0.45)%float = true)
  ∧ (matchScore thresholdResult = 0.45%float ∨ matchScore thresholdResult = 0.46%float →
     status thresholdResult = NoWindowsLocations
     ∨ status thresholdResult = NoValidCandidates
     ∨ status thresholdResult = Matched).
Proof.
  apply (threshold_accepts_score_at_045 platform installDisk (host installDisk)
           thresholdInput nineOfTwenty freshDetector thresholdResult freshDetector).
  - vm_compute. reflexivity.
  - discriminate.
  - discriminate.
Defined.

(** *** A catalog file whose root is an array *)

(** The same valid entry is refused as a bare array and matched inside an
    object with [games]. *)
Lemma bare_array_is_reported_invalid :
  status <$> value
    (detectCatalogSavePaths platform installDisk (host installDisk)
       (detectionInput "C:\catalog-array.json" "Wrapped Game" None) noAdapters
       freshDetector).1
  = Some CatalogInvalid
  ∧ status <$> value
      (detectCatalogSavePaths platform installDisk (host installDisk)
         (detectionInput "C:\catalog-wrapped.json" "Wrapped Game" None) noAdapters
         freshDetector).1
    = Some Matched.
Proof. split; vm_compute; reflexivity. Qed.

Lemma bare_array_witness :
  loadCatalogEntries platform installDisk (host installDisk) "C:\catalog-array.json"
    noAdapters freshDetector
  = (Ok (Some []), freshDetector).
Proof.
  destruct (bare_array_catalog_is_invalid platform installDisk (host installDisk)
              (detectionInput "C:\catalog-array.json" "Wrapped Game" None) noAdapters
              freshDetector 1%float "catalog:bare-array") as [Harray _];
    [reflexivity.. |].
  destruct (Harray catalogGames) as [Hload _]; [reflexivity | exact Hload].
Defined.

(** *** A callback that throws *)

(** Detection with a callback that throws ends with that exception, and
    with no result, although the same detection without the callback finds
    the game. *)
Lemma throwing_callback_aborts :
  (detectCatalogSavePaths platform installDisk (host installDisk) throwingInput noAdapters
     freshDetector).1
  = Throw "boom".
Proof. vm_compute. reflexivity. Qed.

Lemma callback_exception_witness :
  (detectCatalogSavePaths platform installDisk (host installDisk) throwingInput noAdapters
     freshDetector).1
  = Throw "boom".
Proof.
  destruct (callback_exception_aborts_detection platform installDisk (host installDisk)
              throwingInput noAdapters freshDetector (λ _ _, Throw "boom"))
    as [Hthrows _]; [reflexivity |].
  apply Hthrows. reflexivity.
Defined.

End CatalogInstances.
